(** * goQuant: the order-book WebSocket client (src/websocket.cpp)

    A shallow embedding of [WebSocketClient] and [main].  The client is a
    chain of completion handlers; every handler runs to completion on the
    single thread that calls [ioc.run()].  The embedding keeps that shape:

    - the members of [WebSocketClient] and the observable state of the
      Boost objects it drives are the fields of one record, [world];
    - a member function is a computation in a small state monad over
      [world];
    - an asynchronous call appends the operation, paired with the handler
      that [bind_front_handler] attached to it, to the io_context's set of
      outstanding operations and to a log of library calls;
    - [ioc_run] is the event loop: it takes the results the network
      delivers (a list of [outcome]s) and invokes the bound handlers.

    The JSON codec (JsonCpp's reader and writers) is a parameter. *)

From Stdlib Require Import ZArith NArith List String Ascii Bool Lia DecimalString.
Import ListNotations.
Open Scope string_scope.

(** ** Data *)

(** [beast::error_code]: a value and the text its category renders for it.
    [if (ec)] tests the value against zero. *)
Record error_code := mk_error_code {
  ec_value : Z;
  ec_message : string
}.

Definition ec_failed (ec : error_code) : bool := negb (ec_value ec =? 0)%Z.

(** [tcp::endpoint]; the port is an unsigned 16-bit number. *)
Record endpoint := mk_endpoint {
  ep_address : string;
  ep_port : N
}.

(** [std::to_string] on the port. *)
Definition to_string (n : N) : string := NilZero.string_of_uint (N.to_uint n).

Definition endl : string := String (ascii_of_nat 10) "".

(** [<cstdlib>]: the two exit statuses [main] returns. *)
Definition EXIT_SUCCESS : Z := 0.
Definition EXIT_FAILURE : Z := 1.

(** *** The TLS context [ssl::context] *)

Inductive ssl_method := tlsv12_client | tlsv12_server | tls_client | tls_server.
Inductive verify_mode := verify_none | verify_peer.
Inductive handshake_type := client | server.

(** [cb_host_name_verification h] stands for the only verify callback that
    checks a name, [ssl::host_name_verification(h)]. *)
Inductive verify_callback := cb_host_name_verification (h : string).

Record ssl_context := mk_ssl_context {
  ctx_method : ssl_method;
  ctx_verify_mode : verify_mode;
  ctx_default_verify_paths : bool;
  ctx_verify_callback : option verify_callback
}.

(** A freshly constructed context verifies nothing and trusts nothing. *)
Definition new_ssl_context (m : ssl_method) : ssl_context :=
  mk_ssl_context m verify_none false None.

Definition set_verify_mode (v : verify_mode) (c : ssl_context) : ssl_context :=
  mk_ssl_context (ctx_method c) v (ctx_default_verify_paths c) (ctx_verify_callback c).

Definition set_default_verify_paths (c : ssl_context) : ssl_context :=
  mk_ssl_context (ctx_method c) (ctx_verify_mode c) true (ctx_verify_callback c).

(** What the peer presents: whether its chain validates against the
    system trust store, and the names the leaf certificate is issued for. *)
Record peer_certificate := mk_peer_certificate {
  cert_chain_trusted : bool;
  cert_names : list string
}.

Definition cert_matches (name : string) (c : peer_certificate) : bool :=
  existsb (String.eqb name) (cert_names c).

(** The library's verification during a client handshake, as Boost.Asio
    and OpenSSL document it: with [verify_none] nothing is checked; with
    [verify_peer] the chain must validate against the loaded trust
    anchors, and a name is checked only by an installed callback. *)
Definition handshake_accepts (c : ssl_context) (p : peer_certificate) : bool :=
  match ctx_verify_mode c with
  | verify_none => true
  | verify_peer =>
      (ctx_default_verify_paths c && cert_chain_trusted p)
      && match ctx_verify_callback c with
         | None => true
         | Some (cb_host_name_verification h) => cert_matches h p
         end
  end.

(** *** WebSocket stream options *)

Inductive role_type := role_client | role_server.

(** [websocket::stream_base::timeout]: the stream's default, or the
    settings [timeout::suggested(role)] returns. *)
Inductive ws_timeout := timeout_default | timeout_suggested (r : role_type).

(** *** JSON values ([Json::Value]) *)

#[local] Set Warnings "-register-all".

Inductive Json :=
| JNull
| JInt (n : Z)
| JString (s : string)
| JArray (items : list Json)
| JObject (members : list (string * Json)).

(** [Json::Value::operator[](key)] followed by an update of the member:
    a null value becomes an object, a missing member starts as null. *)
Fixpoint members_update (k : string) (f : Json -> Json) (ms : list (string * Json))
  : list (string * Json) :=
  match ms with
  | [] => [(k, f JNull)]
  | (k', v) :: rest =>
      if String.eqb k k' then (k', f v) :: rest
      else if String.ltb k k' then (k, f JNull) :: (k', v) :: rest
      else (k', v) :: members_update k f rest
  end.

Fixpoint json_update (path : list string) (f : Json -> Json) (j : Json) : Json :=
  match path with
  | [] => f j
  | k :: rest =>
      match j with
      | JNull => JObject [(k, json_update rest f JNull)]
      | JObject ms => JObject (members_update k (json_update rest f) ms)
      | other => other
      end
  end.

Definition json_assign (path : list string) (v : Json) : Json -> Json :=
  json_update path (fun _ => v).

(** [Json::Value::append]: a null value becomes an array. *)
Definition json_append (path : list string) (v : Json) : Json -> Json :=
  json_update path (fun j =>
    match j with
    | JNull => JArray [v]
    | JArray items => JArray (items ++ [v])
    | other => other
    end).

Fixpoint members_find (k : string) (ms : list (string * Json)) : option Json :=
  match ms with
  | [] => None
  | (k', v) :: rest => if String.eqb k k' then Some v else members_find k rest
  end.

Fixpoint json_get (path : list string) (j : Json) : option Json :=
  match path with
  | [] => Some j
  | k :: rest =>
      match j with
      | JObject ms =>
          match members_find k ms with
          | Some v => json_get rest v
          | None => None
          end
      | _ => None
      end
  end.

(** What [Json::Reader::parse] does with a document: it fills the root
    and returns true, it returns false, or it leaves by an exception (the
    reader gives up on input nested deeper than its stack limit). *)
Inductive parse_result :=
| parse_ok (root : Json)
| parse_failed
| parse_throws (what : string).

(** The exception a call of the reader ended with, if it did. *)
Definition thrown_by (r : parse_result) : option string :=
  match r with
  | parse_throws what => Some what
  | _ => None
  end.

(** ** Asynchronous operations, handlers and the log of library calls *)

Inductive async_op :=
| op_resolve (host port : string)
| op_connect (results : list endpoint)
| op_ssl_handshake (role : handshake_type)
| op_ws_handshake (host target : string)
| op_write (message : string)
| op_read.

(** The member function bound as completion handler. *)
Inductive handler :=
| h_on_resolve
| h_on_connect
| h_on_ssl_handshake
| h_on_handshake
| h_on_write
| h_on_read.

(** Calls into the Boost objects, in program order. *)
Inductive call :=
| issue (op : async_op) (h : handler)
| expires_after (seconds : Z)
| expires_never
| set_option (t : ws_timeout)
| consume (n : nat).

(** What the runtime hands to the handler when an operation completes.
    A handler reads only the fields of its own signature. *)
Record outcome := mk_outcome {
  out_ec : error_code;
  out_results : list endpoint;
  out_ep : endpoint;
  out_bytes : N;
  out_data : list Byte.byte
}.

(** ** The state *)

Record world := mk_world {
  (* WebSocketClient members *)
  host_ : string;
  instrument_ : string;
  buffer_ : list Byte.byte;
  (* ws_ and its layers *)
  ssl_ctx : ssl_context;
  tcp_expiry : option Z;
  ws_timeout_option : ws_timeout;
  (* the io_context *)
  pending : list (async_op * handler);
  calls : list call;
  (* the standard streams *)
  cout : string;
  cerr : string;
  (* the exception that has left a handler and [ioc.run()], if any *)
  uncaught : option string
}.

Definition set_host_ (v : string) (w : world) : world :=
  mk_world v (instrument_ w) (buffer_ w) (ssl_ctx w) (tcp_expiry w)
           (ws_timeout_option w) (pending w) (calls w) (cout w) (cerr w) (uncaught w).
Definition set_instrument_ (v : string) (w : world) : world :=
  mk_world (host_ w) v (buffer_ w) (ssl_ctx w) (tcp_expiry w)
           (ws_timeout_option w) (pending w) (calls w) (cout w) (cerr w) (uncaught w).
Definition set_buffer_ (v : list Byte.byte) (w : world) : world :=
  mk_world (host_ w) (instrument_ w) v (ssl_ctx w) (tcp_expiry w)
           (ws_timeout_option w) (pending w) (calls w) (cout w) (cerr w) (uncaught w).
Definition set_tcp_expiry (v : option Z) (w : world) : world :=
  mk_world (host_ w) (instrument_ w) (buffer_ w) (ssl_ctx w) v
           (ws_timeout_option w) (pending w) (calls w) (cout w) (cerr w) (uncaught w).
Definition set_ws_timeout_option (v : ws_timeout) (w : world) : world :=
  mk_world (host_ w) (instrument_ w) (buffer_ w) (ssl_ctx w) (tcp_expiry w)
           v (pending w) (calls w) (cout w) (cerr w) (uncaught w).
Definition set_pending (v : list (async_op * handler)) (w : world) : world :=
  mk_world (host_ w) (instrument_ w) (buffer_ w) (ssl_ctx w) (tcp_expiry w)
           (ws_timeout_option w) v (calls w) (cout w) (cerr w) (uncaught w).
Definition set_calls (v : list call) (w : world) : world :=
  mk_world (host_ w) (instrument_ w) (buffer_ w) (ssl_ctx w) (tcp_expiry w)
           (ws_timeout_option w) (pending w) v (cout w) (cerr w) (uncaught w).
Definition set_cout (v : string) (w : world) : world :=
  mk_world (host_ w) (instrument_ w) (buffer_ w) (ssl_ctx w) (tcp_expiry w)
           (ws_timeout_option w) (pending w) (calls w) v (cerr w) (uncaught w).
Definition set_cerr (v : string) (w : world) : world :=
  mk_world (host_ w) (instrument_ w) (buffer_ w) (ssl_ctx w) (tcp_expiry w)
           (ws_timeout_option w) (pending w) (calls w) (cout w) v (uncaught w).
Definition set_uncaught (v : option string) (w : world) : world :=
  mk_world (host_ w) (instrument_ w) (buffer_ w) (ssl_ctx w) (tcp_expiry w)
           (ws_timeout_option w) (pending w) (calls w) (cout w) (cerr w) v.

(** The client as its constructor leaves it: nothing outstanding, the
    stream's timeouts at their defaults. *)
Definition WebSocketClient (ctx : ssl_context) : world :=
  mk_world "" "" [] ctx None timeout_default [] [] "" "" None.

(** ** The state monad *)

Definition M (A : Type) : Type := world -> A * world.

Definition ret {A} (a : A) : M A := fun w => (a, w).
Definition bind {A B} (m : M A) (k : A -> M B) : M B :=
  fun w => k (fst (m w)) (snd (m w)).
Definition gets {A} (f : world -> A) : M A := fun w => (f w, w).
Definition modify (f : world -> world) : M unit := fun w => (tt, f w).
Definition exec {A} (m : M A) (w : world) : world := snd (m w).

Declare Scope monad_scope.
Delimit Scope monad_scope with monad.
Notation "x <- m ;; k" := (bind m (fun x => k))
  (at level 61, m at next level, right associativity) : monad_scope.
Notation "m ;; k" := (bind m (fun _ => k))
  (at level 61, right associativity) : monad_scope.
Open Scope monad_scope.

(** *** Primitive calls *)

Definition log (c : call) : M unit :=
  modify (fun w => set_calls (calls w ++ [c]) w).

(** Starting an operation registers it, with its handler, with the
    io_context. *)
Definition async (op : async_op) (h : handler) : M unit :=
  log (issue op h) ;;
  modify (fun w => set_pending (pending w ++ [(op, h)]) w).

Definition lowest_layer_expires_after (seconds : Z) : M unit :=
  log (expires_after seconds) ;;
  modify (set_tcp_expiry (Some seconds)).

Definition lowest_layer_expires_never : M unit :=
  log expires_never ;;
  modify (set_tcp_expiry None).

Definition ws_set_option (t : ws_timeout) : M unit :=
  log (set_option t) ;;
  modify (set_ws_timeout_option t).

(** [buffer_.consume(n)] drops the first [n] readable bytes. *)
Definition buffer_consume (n : nat) : M unit :=
  log (consume n) ;;
  modify (fun w => set_buffer_ (skipn n (buffer_ w)) w).

Definition write_cout (s : string) : M unit :=
  modify (fun w => set_cout (cout w ++ s) w).
Definition write_cerr (s : string) : M unit :=
  modify (fun w => set_cerr (cerr w ++ s) w).

(** An exception thrown inside a handler: it is in flight from here on,
    and the handler is left. *)
Definition throw (what : string) : M unit :=
  modify (set_uncaught (Some what)).

(** ** Sample completions and a sample codec *)

Definition success : error_code := mk_error_code 0 "Success".
Definition host_not_found : error_code :=
  mk_error_code 1 "Host not found (authoritative)".
Definition certificate_verify_failed : error_code :=
  mk_error_code 167772294 "certificate verify failed".
Definition closed : error_code :=
  mk_error_code 1 "The WebSocket stream was gracefully closed at both endpoints".

Definition sample_endpoint : endpoint := mk_endpoint "172.16.0.1" 443.

(** An operation that completed without error; [data] is what a read
    received. *)
Definition completed (data : string) : outcome :=
  mk_outcome success [sample_endpoint] sample_endpoint
             (N.of_nat (String.length data)) (list_byte_of_string data).

Definition failed_with (ec : error_code) : outcome :=
  mk_outcome ec [] sample_endpoint 0 [].

(** A codec small enough to compute with: only the empty object parses,
    more than 1000 opening brackets in a row exhaust the reader's stack,
    and a request is written as its first channel. *)
Fixpoint nesting (s : string) : nat :=
  match s with
  | String c rest => if Ascii.eqb c "["%char then S (nesting rest) else 0
  | EmptyString => 0
  end.

Fixpoint brackets (n : nat) : string :=
  match n with
  | 0 => ""
  | S k => String "["%char (brackets k)
  end.

Definition sample_parse (s : string) : parse_result :=
  if (1000 <? nesting s)%nat then parse_throws "Exceeded stackLimit in readValue()."
  else if String.eqb s "{}" then parse_ok (JObject [])
  else parse_failed.

(** A reader that throws where [sample_parse] does and rejects
    everything else. *)
Definition sample_reject (s : string) : parse_result :=
  match sample_parse s with
  | parse_ok _ => parse_failed
  | other => other
  end.

Definition sample_styled (j : Json) : string := "{}".

Definition sample_write (j : Json) : string :=
  match json_get ["params"; "channels"] j with
  | Some (JArray (JString c :: _)) => "subscribe " ++ c
  | _ => ""
  end.

(** ** The client *)

Section Client.

(** JsonCpp: [Json::Reader::parse], [Json::Value::toStyledString] and
    [Json::FastWriter::write]. *)
Variable Reader_parse : string -> parse_result.
Variable toStyledString : Json -> string.
Variable FastWriter_write : Json -> string.

(** Report a failure. *)
Definition fail (ec : error_code) (what : string) : M unit :=
  write_cerr (what ++ ": " ++ ec_message ec ++ endl).

(** Asynchronously read a message. *)
Definition read : M unit :=
  async op_read h_on_read.

(** The request [subscribe_to_orderbook] builds. *)
Definition subscription (instrument : string) : Json :=
  let s := JNull in
  let s := json_assign ["jsonrpc"] (JString "2.0") s in
  let s := json_assign ["id"] (JInt 1) s in
  let s := json_assign ["method"] (JString "public/subscribe") s in
  json_append ["params"; "channels"] (JString ("book." ++ instrument ++ ".100ms")) s.

Definition subscribe_to_orderbook : M unit :=
  instrument <- gets instrument_ ;;
  let message := FastWriter_write (subscription instrument) in
  async (op_write message) h_on_write.

Definition on_resolve (ec : error_code) (results : list endpoint) : M unit :=
  if ec_failed ec then fail ec "resolve"
  else
    lowest_layer_expires_after 30 ;;
    async (op_connect results) h_on_connect.

Definition on_connect (ec : error_code) (ep : endpoint) : M unit :=
  if ec_failed ec then fail ec "connect"
  else
    modify (fun w => set_host_ (host_ w ++ (":" ++ to_string (ep_port ep))) w) ;;
    lowest_layer_expires_after 30 ;;
    async (op_ssl_handshake client) h_on_ssl_handshake.

Definition on_ssl_handshake (ec : error_code) : M unit :=
  if ec_failed ec then fail ec "ssl_handshake"
  else
    lowest_layer_expires_never ;;
    ws_set_option (timeout_suggested role_client) ;;
    host <- gets host_ ;;
    async (op_ws_handshake host "/ws/api/v2") h_on_handshake.

Definition on_handshake (ec : error_code) : M unit :=
  if ec_failed ec then fail ec "handshake"
  else subscribe_to_orderbook.

Definition on_write (ec : error_code) (bytes_transferred : N) : M unit :=
  if ec_failed ec then fail ec "write"
  else read.

Definition on_read (ec : error_code) (bytes_transferred : N) : M unit :=
  if ec_failed ec then fail ec "read"
  else
    data <- gets (fun w => string_of_list_byte (buffer_ w)) ;;
    match Reader_parse data with
    | parse_throws what => throw what
    | returned =>
        match returned with
        | parse_ok root =>
            write_cout ("Received message:" ++ endl) ;;
            write_cout (toStyledString root ++ endl)
        | _ =>
            write_cerr ("Failed to parse JSON: " ++ data ++ endl)
        end ;;
        size <- gets (fun w => List.length (buffer_ w)) ;;
        buffer_consume size ;;
        read
    end.

(** Start the connection process. *)
Definition run (host port instrument : string) : M unit :=
  modify (set_host_ host) ;;
  modify (set_instrument_ instrument) ;;
  async (op_resolve host port) h_on_resolve.

(** ** The event loop *)

Definition invoke (h : handler) (o : outcome) : M unit :=
  match h with
  | h_on_resolve => on_resolve (out_ec o) (out_results o)
  | h_on_connect => on_connect (out_ec o) (out_ep o)
  | h_on_ssl_handshake => on_ssl_handshake (out_ec o)
  | h_on_handshake => on_handshake (out_ec o)
  | h_on_write => on_write (out_ec o) (out_bytes o)
  | h_on_read => on_read (out_ec o) (out_bytes o)
  end.

(** A completed read has appended what it received to the buffer it was
    given; no other operation writes into client state. *)
Definition deliver (op : async_op) (o : outcome) : M unit :=
  match op with
  | op_read => modify (fun w => set_buffer_ (buffer_ w ++ out_data o) w)
  | _ => ret tt
  end.

(** One completion: the operation leaves the outstanding set, its result
    is delivered, its handler runs. *)
Definition complete (op : async_op) (h : handler) (rest : list (async_op * handler))
    (o : outcome) : M unit :=
  modify (set_pending rest) ;;
  deliver op o ;;
  invoke h o.

(** [ioc.run()]: handlers are invoked as operations complete; the call
    returns when nothing is outstanding, and an exception thrown by a
    handler leaves it at once.  The boolean tells whether the call was
    left, either way, within the completions supplied. *)
Fixpoint ioc_run (script : list outcome) (w : world) : bool * world :=
  match uncaught w with
  | Some _ => (true, w)
  | None =>
      match pending w with
      | [] => (true, w)
      | (op, h) :: rest =>
          match script with
          | [] => (false, w)
          | o :: script' => ioc_run script' (exec (complete op h rest o) w)
          end
      end
  end.

(** ** [main] *)

(** What the process meets: an exception while the TLS context is set up
    (its [what()]), and the completions the network delivers.  The other
    exception [main] can catch is the reader's, thrown in [on_read]. *)
Record environment := mk_environment {
  env_ctx_exception : option string;
  env_script : list outcome
}.

(** The context [main] configures. *)
Definition main_ctx : ssl_context :=
  set_default_verify_paths (set_verify_mode verify_peer (new_ssl_context tlsv12_client)).

(** [make_shared<WebSocketClient>(ioc, ctx)->run(host, port, instrument)]
    followed by [ioc.run()]. *)
Definition launch (ctx : ssl_context) (host port instrument : string)
    (script : list outcome) : bool * world :=
  ioc_run script (exec (run host port instrument) (WebSocketClient ctx)).

(** The session [main] launches and drives. *)
Definition session (instrument : string) (script : list outcome) : bool * world :=
  launch main_ctx "www.deribit.com" "443" instrument script.

(** The process before [main] has built anything: nothing written, no
    client yet (its fields are as a constructor would leave them). *)
Definition process_start : world :=
  WebSocketClient (new_ssl_context tlsv12_client).

(** The exit status, or [None] while [ioc.run()] has not returned,
    together with the final state. *)
Definition main (argv : list string) (e : environment) : option Z * world :=
  if negb (List.length argv =? 2)%nat then
    (Some EXIT_FAILURE,
     exec (write_cerr ("Usage: websocket_client <instrument>" ++ endl) ;;
           write_cerr ("Example: websocket_client BTC-PERPETUAL" ++ endl))
          process_start)
  else
    let instrument := nth 1 argv "" in
    match env_ctx_exception e with
    | Some what =>
        (Some EXIT_FAILURE,
         exec (write_cerr ("Error: " ++ what ++ endl)) process_start)
    | None =>
        let r := session instrument (env_script e) in
        match uncaught (snd r) with
        | Some what =>
            (Some EXIT_FAILURE,
             exec (write_cerr ("Error: " ++ what ++ endl)) (snd r))
        | None => (if fst r then Some EXIT_SUCCESS else None, snd r)
        end
    end.

(** ** Observations on a run *)

(** One completion, as the event loop processes it. *)
Definition step (o : outcome) (w : world) : world :=
  match uncaught w with
  | Some _ => w
  | None =>
      match pending w with
      | [] => w
      | (op, h) :: rest => exec (complete op h rest o) w
      end
  end.

Definition world_after (ctx : ssl_context) (host port instrument : string)
    (script : list outcome) : world :=
  snd (launch ctx host port instrument script).

Definition succeeded (o : outcome) : bool := negb (ec_failed (out_ec o)).
Definition all_ok (script : list outcome) : bool := forallb succeeded script.

(** The stages of the lifecycle, named after the operation that is
    outstanding. *)
Inductive stage :=
| st_resolve
| st_connect
| st_tls_handshake
| st_upgrade
| st_subscribe
| st_streaming.

Definition op_stage (op : async_op) : stage :=
  match op with
  | op_resolve _ _ => st_resolve
  | op_connect _ => st_connect
  | op_ssl_handshake _ => st_tls_handshake
  | op_ws_handshake _ _ => st_upgrade
  | op_write _ => st_subscribe
  | op_read => st_streaming
  end.

Definition handler_stage (h : handler) : stage :=
  match h with
  | h_on_resolve => st_resolve
  | h_on_connect => st_connect
  | h_on_ssl_handshake => st_tls_handshake
  | h_on_handshake => st_upgrade
  | h_on_write => st_subscribe
  | h_on_read => st_streaming
  end.

(** The phase name [fail] is given by the handler of each stage. *)
Definition what_of (st : stage) : string :=
  match st with
  | st_resolve => "resolve"
  | st_connect => "connect"
  | st_tls_handshake => "ssl_handshake"
  | st_upgrade => "handshake"
  | st_subscribe => "write"
  | st_streaming => "read"
  end.

Definition next_stage (st : stage) : stage :=
  match st with
  | st_resolve => st_connect
  | st_connect => st_tls_handshake
  | st_tls_handshake => st_upgrade
  | st_upgrade => st_subscribe
  | st_subscribe => st_streaming
  | st_streaming => st_streaming
  end.

(** The stage entered with the [n]-th operation (counting from 0). *)
Definition stage_at (n : nat) : stage :=
  nth n [st_resolve; st_connect; st_tls_handshake; st_upgrade; st_subscribe] st_streaming.

(** The first [n] stages of the lifecycle. *)
Definition lifecycle (n : nat) : list stage :=
  firstn n [st_resolve; st_connect; st_tls_handshake; st_upgrade; st_subscribe]
  ++ repeat st_streaming (n - 5).

(** The operations a log shows as issued, the stages they belong to, and
    the messages written. *)
Fixpoint issued (cs : list call) : list async_op :=
  match cs with
  | [] => []
  | issue op _ :: rest => op :: issued rest
  | _ :: rest => issued rest
  end.

Definition stages (cs : list call) : list stage := map op_stage (issued cs).

Fixpoint written (ops : list async_op) : list string :=
  match ops with
  | [] => []
  | op_write m :: rest => m :: written rest
  | _ :: rest => written rest
  end.

(** The authorities of the upgrade handshakes among a list of issued
    operations. *)
Fixpoint authorities (ops : list async_op) : list string :=
  match ops with
  | [] => []
  | op_ws_handshake h _ :: rest => h :: authorities rest
  | _ :: rest => authorities rest
  end.

(** The calls made once the upgrade is under way: the write, the reads
    and the [consume]s.  None of them touches a timeout setting. *)
Definition subscribe_or_stream (c : call) : bool :=
  match c with
  | issue (op_write _) _ | issue op_read _ | consume _ => true
  | _ => false
  end.

(** An operation that names an endpoint names the one [main] fixes. *)
Definition fixed_endpoint (op : async_op) : bool :=
  match op with
  | op_resolve h p => String.eqb h "www.deribit.com" && String.eqb p "443"
  | op_ws_handshake h t => prefix "www.deribit.com:" h && String.eqb t "/ws/api/v2"
  | _ => true
  end.

(** The operations of the subscription and of the read loop. *)
Definition write_or_read (op : async_op) : bool :=
  match op with
  | op_write _ | op_read => true
  | _ => false
  end.

(** A log with the text of the written messages blanked. *)
Definition blank_message (op : async_op) : async_op :=
  match op with
  | op_write _ => op_write ""
  | other => other
  end.

Definition blank_call (c : call) : call :=
  match c with
  | issue op h => issue (blank_message op) h
  | other => other
  end.

Definition blank_pending (p : async_op * handler) : async_op * handler :=
  (blank_message (fst p), snd p).

(** Two states that differ at most in the instrument and in the text of
    the messages written. *)
Definition alike (w w' : world) : Prop :=
  host_ w = host_ w'
  /\ buffer_ w = buffer_ w'
  /\ ssl_ctx w = ssl_ctx w'
  /\ tcp_expiry w = tcp_expiry w'
  /\ ws_timeout_option w = ws_timeout_option w'
  /\ map blank_pending (pending w) = map blank_pending (pending w')
  /\ map blank_call (calls w) = map blank_call (calls w')
  /\ cout w = cout w'
  /\ cerr w = cerr w'
  /\ uncaught w = uncaught w'.

(** The stages after the TLS handshake. *)
Definition past_tls (st : stage) : bool :=
  match st with
  | st_upgrade | st_subscribe | st_streaming => true
  | _ => false
  end.

(** Exactly one operation, of stage [st] and bound to the handler of
    that stage, is outstanding, and no exception is in flight. *)
Definition at_stage (st : stage) (w : world) : Prop :=
  exists op h, pending w = [(op, h)] /\ op_stage op = st /\ handler_stage h = st
               /\ uncaught w = None.

(** The state from the upgrade on: what the TLS handshake handler set up
    stays as it is. *)
Definition settled (base : world) (w : world) : Prop :=
  tcp_expiry w = tcp_expiry base
  /\ ws_timeout_option w = ws_timeout_option base
  /\ host_ w = host_ base
  /\ firstn (List.length (calls base)) (calls w) = calls base
  /\ forallb subscribe_or_stream (skipn (List.length (calls base)) (calls w)) = true
  /\ (pending w = [] \/ exists st, past_tls st = true /\ at_stage st w).

(** *** What the read loop prints *)

(** The messages a run has received: the data of the completions after
    the five that establish the session. *)
Definition received (script : list outcome) : list (list Byte.byte) :=
  map out_data (skipn 5 script).

(** What [on_read] writes to [std::cout] and to [std::cerr] for one
    message. *)
Definition printed (data : list Byte.byte) : string :=
  match Reader_parse (string_of_list_byte data) with
  | parse_ok root => ("Received message:" ++ endl) ++ (toStyledString root ++ endl)
  | _ => ""
  end.

Definition reported (data : list Byte.byte) : string :=
  match Reader_parse (string_of_list_byte data) with
  | parse_failed => "Failed to parse JSON: " ++ string_of_list_byte data ++ endl
  | _ => ""
  end.

(** Whether the reader throws on a message, and whether it throws on
    none of the messages a run has received. *)
Definition throws (data : list Byte.byte) : bool :=
  match Reader_parse (string_of_list_byte data) with
  | parse_throws _ => true
  | _ => false
  end.

Definition no_throw (script : list outcome) : bool :=
  forallb (fun data => negb (throws data)) (received script).

Fixpoint join (ss : list string) : string :=
  match ss with
  | [] => ""
  | s :: rest => s ++ join rest
  end.

(** The sizes passed to [buffer_.consume], in program order. *)
Fixpoint consumed (cs : list call) : list nat :=
  match cs with
  | [] => []
  | consume n :: rest => n :: consumed rest
  | _ :: rest => consumed rest
  end.

(** Two states that differ at most in what was printed. *)
Definition same_control (w w' : world) : Prop :=
  host_ w = host_ w'
  /\ instrument_ w = instrument_ w'
  /\ buffer_ w = buffer_ w'
  /\ ssl_ctx w = ssl_ctx w'
  /\ tcp_expiry w = tcp_expiry w'
  /\ ws_timeout_option w = ws_timeout_option w'
  /\ pending w = pending w'
  /\ calls w = calls w'
  /\ uncaught w = uncaught w'.

(** ** The event loop, one completion at a time *)

Lemma ioc_run_idle (script : list outcome) (w : world) :
  pending w = [] -> ioc_run script w = (true, w).
Proof.
  intros H. destruct script; simpl; rewrite H; destruct (uncaught w); reflexivity.
Qed.

Lemma ioc_run_thrown (script : list outcome) (w : world) :
  uncaught w <> None -> ioc_run script w = (true, w).
Proof.
  intros H. destruct script; simpl; destruct (uncaught w); congruence.
Qed.

Lemma ioc_run_snoc (script : list outcome) (o : outcome) (w : world) :
  snd (ioc_run (script ++ [o]) w) = step o (snd (ioc_run script w)).
Proof.
  revert w. induction script as [|a script IH]; intros w; simpl.
  - unfold step. destruct (uncaught w) eqn:U; [simpl; rewrite U; reflexivity|].
    destruct (pending w) as [|[op h] rest] eqn:E; simpl; rewrite U, E.
    + reflexivity.
    + destruct (uncaught (exec (complete op h rest o) w));
        [|destruct (pending (exec (complete op h rest o) w)) as [|[? ?] ?]];
        reflexivity.
  - destruct (uncaught w) eqn:U; [simpl; unfold step; rewrite U; reflexivity|].
    destruct (pending w) as [|[op h] rest] eqn:E.
    + simpl. unfold step. rewrite U, E. reflexivity.
    + apply IH.
Qed.

(** [ioc.run()] has been left: by an exception, or with nothing
    outstanding. *)
Lemma ioc_run_returned (script : list outcome) (w : world) :
  fst (ioc_run script w)
  = match uncaught (snd (ioc_run script w)) with
    | Some _ => true
    | None => match pending (snd (ioc_run script w)) with [] => true | _ => false end
    end.
Proof.
  revert w. induction script as [|a script IH]; intros w; simpl.
  - destruct (uncaught w) eqn:U; simpl; rewrite ?U; [reflexivity|].
    destruct (pending w) as [|[op h] rest] eqn:E; simpl; rewrite ?U, ?E; reflexivity.
  - destruct (uncaught w) eqn:U; simpl; rewrite ?U; [reflexivity|].
    destruct (pending w) as [|[op h] rest] eqn:E; simpl; rewrite ?U, ?E; [reflexivity|].
    apply IH.
Qed.

Lemma world_after_snoc ctx host port instrument script o :
  world_after ctx host port instrument (script ++ [o])
  = step o (world_after ctx host port instrument script).
Proof. apply ioc_run_snoc. Qed.

Lemma world_after_nil ctx host port instrument :
  world_after ctx host port instrument []
  = exec (run host port instrument) (WebSocketClient ctx).
Proof. reflexivity. Qed.

Lemma step_idle o w : pending w = [] -> step o w = w.
Proof. intros H. unfold step. rewrite H. destruct (uncaught w); reflexivity. Qed.

Lemma all_ok_snoc script o :
  all_ok (script ++ [o]) = all_ok script && succeeded o.
Proof.
  unfold all_ok. rewrite forallb_app. simpl. rewrite andb_true_r. reflexivity.
Qed.

(** Case analysis on a completion at a known stage. *)
Ltac at_stage_cases H :=
  let op := fresh "op" in
  let h := fresh "h" in
  let Hp := fresh "Hp" in
  let Ho := fresh "Ho" in
  let Hh := fresh "Hh" in
  let Hu := fresh "Hu" in
  destruct H as (op & h & Hp & Ho & Hh & Hu);
  destruct op; simpl in Ho; try discriminate Ho; subst;
  destruct h; try discriminate Hh; clear Hh.

Lemma step_failed (st : stage) (o : outcome) (w : world) :
  at_stage st w ->
  ec_failed (out_ec o) = true ->
  pending (step o w) = []
  /\ calls (step o w) = calls w
  /\ cerr (step o w) = cerr w ++ (what_of st ++ ": " ++ ec_message (out_ec o) ++ endl)
  /\ cout (step o w) = cout w
  /\ host_ (step o w) = host_ w
  /\ tcp_expiry (step o w) = tcp_expiry w
  /\ ws_timeout_option (step o w) = ws_timeout_option w.
Proof.
  intros H F. unfold step.
  at_stage_cases H; rewrite Hu, Hp;
    unfold exec, complete, deliver, invoke, on_resolve, on_connect, on_ssl_handshake,
      on_handshake, on_write, on_read;
    simpl; rewrite F; simpl; repeat split; reflexivity.
Qed.

Lemma issued_app (cs ds : list call) : issued (cs ++ ds) = (issued cs ++ issued ds)%list.
Proof.
  induction cs as [|c cs IH]; simpl; [reflexivity|].
  destruct c; simpl; rewrite IH; reflexivity.
Qed.

Lemma stages_app (cs ds : list call) : stages (cs ++ ds) = (stages cs ++ stages ds)%list.
Proof. unfold stages. rewrite issued_app, map_app. reflexivity. Qed.

Ltac run_handlers :=
  unfold exec, complete, deliver, invoke, on_resolve, on_connect, on_ssl_handshake,
    on_handshake, on_write, on_read, subscribe_to_orderbook, read, fail;
  cbv [bind gets modify ret async log lowest_layer_expires_after
       lowest_layer_expires_never ws_set_option buffer_consume write_cout
       write_cerr throw fst snd].

Lemma step_succeeded (st : stage) (o : outcome) (w : world) :
  at_stage st w ->
  ec_failed (out_ec o) = false ->
  (st = st_streaming -> throws (buffer_ w ++ out_data o)%list = false) ->
  exists op h,
    pending (step o w) = [(op, h)]
    /\ op_stage op = next_stage st
    /\ handler_stage h = next_stage st
    /\ issued (calls (step o w)) = (issued (calls w) ++ [op])%list.
Proof.
  intros H F T. unfold step.
  at_stage_cases H; rewrite Hu, Hp; run_handlers; simpl; rewrite F; simpl;
    try (specialize (T eq_refl); unfold throws in T;
         destruct (Reader_parse _); try discriminate T; simpl);
    rewrite ?issued_app; cbn [issued]; rewrite ?app_nil_r;
    do 2 eexists; repeat split; reflexivity.
Qed.

Lemma step_succeeded_clean (st : stage) (o : outcome) (w : world) :
  at_stage st w ->
  ec_failed (out_ec o) = false ->
  (st = st_streaming -> throws (buffer_ w ++ out_data o)%list = false) ->
  uncaught (step o w) = None.
Proof.
  intros H F T. unfold step.
  at_stage_cases H; rewrite Hu, Hp; run_handlers; simpl; rewrite F; simpl;
    try (specialize (T eq_refl); unfold throws in T;
         destruct (Reader_parse _); try discriminate T; simpl);
    assumption.
Qed.

(** A read on whose message the reader throws: the exception is in
    flight, nothing is outstanding, nothing was consumed or issued. *)
Lemma step_thrown (o : outcome) (w : world) (what : string) :
  at_stage st_streaming w ->
  ec_failed (out_ec o) = false ->
  Reader_parse (string_of_list_byte (buffer_ w ++ out_data o)%list) = parse_throws what ->
  step o w = set_uncaught (Some what)
               (set_buffer_ (buffer_ w ++ out_data o)%list (set_pending [] w)).
Proof.
  intros H F T. unfold step.
  at_stage_cases H. rewrite Hu, Hp. run_handlers. simpl. rewrite F. simpl.
  rewrite T. reflexivity.
Qed.

Lemma stage_at_succ (n : nat) : stage_at (S n) = next_stage (stage_at n).
Proof.
  do 5 (destruct n as [|n]; [reflexivity|]).
  unfold stage_at. simpl. destruct n; reflexivity.
Qed.

Lemma lifecycle_succ (n : nat) : lifecycle (S n) = (lifecycle n ++ [stage_at n])%list.
Proof.
  do 5 (destruct n as [|n]; [reflexivity|]).
  unfold lifecycle, stage_at.
  replace (S (S (S (S (S (S n))))) - 5) with (S n) by lia.
  replace (S (S (S (S (S n)))) - 5) with n by lia.
  rewrite !firstn_all2 by (simpl; lia).
  replace (nth _ _ _) with st_streaming
    by (simpl; destruct n; reflexivity).
  rewrite <- app_assoc. f_equal.
  change [st_streaming] with (repeat st_streaming 1).
  rewrite <- repeat_app. f_equal. lia.
Qed.

Lemma step_past_tls (st : stage) (o : outcome) (w : world) :
  at_stage st w ->
  past_tls st = true ->
  (pending (step o w) = [] \/ at_stage (next_stage st) (step o w))
  /\ (exists extra, calls (step o w) = (calls w ++ extra)%list
                    /\ forallb subscribe_or_stream extra = true)
  /\ tcp_expiry (step o w) = tcp_expiry w
  /\ ws_timeout_option (step o w) = ws_timeout_option w
  /\ host_ (step o w) = host_ w.
Proof.
  intros H L. destruct (ec_failed (out_ec o)) eqn:F.
  - destruct (step_failed _ o _ H F) as (Hp & Hc & _ & _ & Hh & Ht & Hw).
    split; [left; exact Hp|]. split; [|auto].
    exists []. rewrite app_nil_r. auto.
  - unfold step, at_stage.
    at_stage_cases H; try discriminate L; rewrite Hu, Hp; run_handlers; simpl;
      rewrite F; simpl; try (destruct (Reader_parse _); simpl);
      rewrite <- ?app_assoc;
      (split; [first [left; reflexivity
                     | right; do 2 eexists; repeat split; (reflexivity || assumption)]|]);
      (split; [first [exists []; rewrite app_nil_r; split; reflexivity
                     | eexists; split; reflexivity]|]);
      auto.
Qed.

Lemma authorities_app (xs ys : list async_op) :
  authorities (xs ++ ys) = (authorities xs ++ authorities ys)%list.
Proof.
  induction xs as [|x xs IH]; simpl; [reflexivity|].
  destruct x; simpl; rewrite IH; reflexivity.
Qed.

Lemma written_app (xs ys : list async_op) :
  written (xs ++ ys) = (written xs ++ written ys)%list.
Proof.
  induction xs as [|x xs IH]; simpl; [reflexivity|].
  destruct x; simpl; rewrite IH; reflexivity.
Qed.

Lemma step_past_tls_authorities (st : stage) (o : outcome) (w : world) :
  at_stage st w ->
  past_tls st = true ->
  authorities (issued (calls (step o w))) = authorities (issued (calls w)).
Proof.
  intros H L.
  destruct (step_past_tls st o w H L) as (_ & (extra & Hc & Hx) & _).
  rewrite Hc, issued_app, authorities_app.
  assert (E : authorities (issued extra) = []).
  { clear Hc. induction extra as [|c extra IH]; [reflexivity|].
    simpl in Hx. apply andb_true_iff in Hx as [Hc Hx].
    destruct c as [op h| | | |]; try discriminate Hc; simpl; try (apply IH, Hx).
    destruct op; try discriminate Hc; simpl; apply IH, Hx. }
  rewrite E. apply app_nil_r.
Qed.

Lemma received_snoc_early (script : list outcome) (o : outcome) :
  List.length script < 5 -> received (script ++ [o]) = received script.
Proof.
  intros H. unfold received.
  rewrite !skipn_all2; [reflexivity | lia | rewrite length_app; simpl; lia].
Qed.

Lemma received_snoc (script : list outcome) (o : outcome) :
  5 <= List.length script ->
  received (script ++ [o]) = (received script ++ [out_data o])%list.
Proof.
  intros H. unfold received. rewrite skipn_app, map_app.
  replace (5 - List.length script) with 0 by lia. reflexivity.
Qed.

Lemma stage_at_early (n : nat) : n < 5 -> stage_at n <> st_streaming.
Proof.
  intros H. do 5 (destruct n as [|n]; [discriminate|]). lia.
Qed.

Lemma stage_at_late (n : nat) : 5 <= n -> stage_at n = st_streaming.
Proof.
  intros H. unfold stage_at. apply nth_overflow. simpl. lia.
Qed.

Lemma no_throw_snoc_early (script : list outcome) (o : outcome) :
  List.length script < 5 -> no_throw (script ++ [o]) = no_throw script.
Proof. intros H. unfold no_throw. rewrite (received_snoc_early _ o H). reflexivity. Qed.

Lemma no_throw_snoc (script : list outcome) (o : outcome) :
  5 <= List.length script ->
  no_throw (script ++ [o]) = no_throw script && negb (throws (out_data o)).
Proof.
  intros H. unfold no_throw. rewrite (received_snoc _ o H), forallb_app. simpl.
  rewrite andb_true_r. reflexivity.
Qed.

Lemma step_buffer (st : stage) (o : outcome) (w : world) :
  at_stage st w ->
  buffer_ w = [] ->
  (buffer_ (step o w) = [] \/ (pending (step o w) = [] /\ buffer_ (step o w) = out_data o))
  /\ exists extra,
       calls (step o w) = (calls w ++ extra)%list
       /\ Forall (fun c => forall n, c = consume n -> n = List.length (out_data o)) extra.
Proof.
  intros H B. unfold step.
  destruct (ec_failed (out_ec o)) eqn:F;
    at_stage_cases H; rewrite Hu, Hp; run_handlers; simpl; rewrite F; simpl;
    try (destruct (Reader_parse _); simpl); rewrite ?B; simpl; rewrite ?skipn_all;
    (split; [auto|]); rewrite <- ?app_assoc;
    try (exists []; rewrite app_nil_r; split; [reflexivity|constructor]);
    (eexists; split; [reflexivity|]);
    repeat (constructor; [intros n Hn; try discriminate Hn; try (injection Hn as <-; reflexivity)|]);
    constructor.
Qed.

Lemma healthy_snoc (script : list outcome) (o : outcome) :
  all_ok (script ++ [o]) = true ->
  no_throw (script ++ [o]) = true ->
  all_ok script = true
  /\ no_throw script = true
  /\ ec_failed (out_ec o) = false
  /\ (stage_at (List.length script) = st_streaming -> throws (out_data o) = false).
Proof.
  intros Hok Hnt. rewrite all_ok_snoc in Hok. apply andb_true_iff in Hok as [Hs Ho].
  unfold succeeded in Ho. apply negb_true_iff in Ho.
  split; [exact Hs|].
  destruct (Nat.lt_ge_cases (List.length script) 5) as [Hlt | Hge].
  - rewrite (no_throw_snoc_early _ o Hlt) in Hnt. split; [exact Hnt|].
    split; [exact Ho|]. intros E. destruct (stage_at_early _ Hlt E).
  - rewrite (no_throw_snoc _ o Hge) in Hnt. apply andb_true_iff in Hnt as [H1 H2].
    split; [exact H1|]. split; [exact Ho|]. intros _. apply negb_true_iff, H2.
Qed.

Lemma step_issues_at_most_one (st : stage) (o : outcome) (w : world) :
  at_stage st w ->
  List.length (issued (calls (step o w))) <= S (List.length (issued (calls w)))
  /\ map fst (pending (step o w))
     = skipn (List.length (issued (calls w))) (issued (calls (step o w))).
Proof.
  intros Hat. destruct (ec_failed (out_ec o)) eqn:F.
  - destruct (step_failed _ o _ Hat F) as (Hp & Hc & _).
    rewrite Hp, Hc, skipn_all. split; [lia | reflexivity].
  - assert (Ok : forall T : st = st_streaming ->
                            throws (buffer_ w ++ out_data o)%list = false,
              List.length (issued (calls (step o w))) <= S (List.length (issued (calls w)))
              /\ map fst (pending (step o w))
                 = skipn (List.length (issued (calls w))) (issued (calls (step o w)))).
    { intros T. destruct (step_succeeded _ o _ Hat F T) as (op & h & Hp & _ & _ & Hi).
      rewrite Hp, Hi, length_app, skipn_app, skipn_all, Nat.sub_diag. simpl.
      split; [lia | reflexivity]. }
    destruct (throws (buffer_ w ++ out_data o)%list) eqn:T; [|apply Ok; auto].
    destruct st; try (apply Ok; discriminate).
    unfold throws in T.
    destruct (Reader_parse _) as [| |what] eqn:P; try discriminate T.
    rewrite (step_thrown o _ what Hat F P). simpl.
    rewrite skipn_all. split; [lia | reflexivity].
Qed.

Section Launched.

Variable ctx : ssl_context.
Variables host port instrument : string.

Local Abbreviation after := (world_after ctx host port instrument).

Lemma started : at_stage st_resolve (after []) /\ stages (calls (after [])) = [st_resolve].
Proof.
  split; [|reflexivity]. exists (op_resolve host port), h_on_resolve. repeat split.
Qed.

Lemma progress_with_buffer (script : list outcome) :
  all_ok script = true ->
  no_throw script = true ->
  at_stage (stage_at (List.length script)) (after script)
  /\ stages (calls (after script)) = lifecycle (S (List.length script))
  /\ buffer_ (after script) = [].
Proof.
  induction script as [|o script IH] using rev_ind; intros Hok Hnt.
  - destruct started as [H1 H2]. auto.
  - rewrite all_ok_snoc in Hok. apply andb_true_iff in Hok as [Hs Ho].
    unfold succeeded in Ho. apply negb_true_iff in Ho.
    assert (Hnt' : no_throw script = true
                   /\ (stage_at (List.length script) = st_streaming ->
                       throws (out_data o) = false)).
    { destruct (Nat.lt_ge_cases (List.length script) 5) as [Hlt | Hge].
      - rewrite (no_throw_snoc_early _ o Hlt) in Hnt. split; [exact Hnt|].
        intros E. destruct (stage_at_early _ Hlt E).
      - rewrite (no_throw_snoc _ o Hge) in Hnt. apply andb_true_iff in Hnt as [H1 H2].
        split; [exact H1|]. intros _. apply negb_true_iff, H2. }
    destruct Hnt' as [Hnt' Ht].
    destruct (IH Hs Hnt') as (Hat & Hst & Hb).
    assert (T : stage_at (List.length script) = st_streaming ->
                throws (buffer_ (after script) ++ out_data o)%list = false)
      by (rewrite Hb; exact Ht).
    rewrite world_after_snoc, length_app. simpl.
    replace (List.length script + 1) with (S (List.length script)) by lia.
    destruct (step_succeeded _ o _ Hat Ho T) as (op & h & Hp & Hop & Hh & Hi).
    pose proof (step_succeeded_clean _ o _ Hat Ho T) as Hu.
    rewrite stage_at_succ. split; [exists op, h; auto|]. split.
    + unfold stages. rewrite Hi, map_app. simpl. fold (stages (calls (after script))).
      rewrite Hst, Hop, <- stage_at_succ. symmetry. apply lifecycle_succ.
    + destruct (step_buffer _ o _ Hat Hb) as ([Hb' | [Hp' _]] & _); [exact Hb'|].
      rewrite Hp in Hp'. discriminate Hp'.
Qed.

(** While every completion succeeds and the reader throws on no message,
    the session is at the stage the number of completions determines, and
    has issued one operation per stage so far. *)
Lemma progress (script : list outcome) :
  all_ok script = true ->
  no_throw script = true ->
  at_stage (stage_at (List.length script)) (after script)
  /\ stages (calls (after script)) = lifecycle (S (List.length script)).
Proof.
  intros Hok Hnt. destruct (progress_with_buffer script Hok Hnt) as (H1 & H2 & _). auto.
Qed.

(** Once a completion has failed or the reader has thrown nothing is
    outstanding, whatever else the network would deliver. *)
Lemma halted (script : list outcome) :
  all_ok script && no_throw script = false -> pending (after script) = [].
Proof.
  induction script as [|o script IH] using rev_ind; intros Hbad.
  - discriminate.
  - rewrite world_after_snoc.
    destruct (all_ok script && no_throw script) eqn:E.
    + apply andb_true_iff in E as [Hs Hnt].
      destruct (progress_with_buffer script Hs Hnt) as (Hat & _ & Hb).
      destruct (ec_failed (out_ec o)) eqn:F; [apply (step_failed _ o _ Hat F)|].
      rewrite all_ok_snoc, Hs in Hbad. unfold succeeded in Hbad. rewrite F in Hbad.
      simpl in Hbad.
      destruct (Nat.lt_ge_cases (List.length script) 5) as [Hlt | Hge].
      * rewrite (no_throw_snoc_early _ o Hlt), Hnt in Hbad. discriminate Hbad.
      * rewrite (no_throw_snoc _ o Hge), Hnt in Hbad. simpl in Hbad.
        apply negb_false_iff in Hbad. unfold throws in Hbad.
        rewrite (stage_at_late _ Hge) in Hat.
        destruct (Reader_parse (string_of_list_byte (out_data o))) as [| |what] eqn:P;
          try discriminate Hbad.
        rewrite (step_thrown o _ what Hat F); [reflexivity|].
        rewrite Hb. exact P.
    + rewrite step_idle; auto.
Qed.

Lemma stopped (script : list outcome) :
  all_ok script = false -> pending (after script) = [].
Proof. intros H. apply halted. rewrite H. reflexivity. Qed.

Lemma after_app_stopped (pre post : list outcome) :
  pending (after pre) = [] -> after (pre ++ post) = after pre.
Proof.
  intros H. induction post as [|o post IH] using rev_ind.
  - rewrite app_nil_r. reflexivity.
  - rewrite app_assoc, world_after_snoc, IH. apply step_idle, H.
Qed.

(** C3. While every completion succeeds (and the reader throws on no
    message), the stages are entered in the order resolve, TCP connect,
    TLS handshake, protocol upgrade, subscribe, streaming, one per
    completion, and the event loop is still running.  When the next
    completion reports an error, the handler writes one line naming its
    phase and the error's message, makes no further library call, leaves
    nothing outstanding, and [ioc.run()] returns: no next stage, no
    retry, whatever else the network would have delivered. *)
Theorem lifecycle_order_and_failure_stop (pre : list outcome) :
  all_ok pre = true ->
  no_throw pre = true ->
  (stages (calls (after pre)) = lifecycle (S (List.length pre))
   /\ fst (launch ctx host port instrument pre) = false)
  /\ forall (o : outcome) (post : list outcome),
       ec_failed (out_ec o) = true ->
       cerr (after (pre ++ o :: post))
       = cerr (after pre)
         ++ (what_of (stage_at (List.length pre)) ++ ": " ++ ec_message (out_ec o) ++ endl)
       /\ calls (after (pre ++ o :: post)) = calls (after pre)
       /\ pending (after (pre ++ o :: post)) = []
       /\ fst (launch ctx host port instrument (pre ++ o :: post)) = true.
Proof.
  intros Hok Hnt. destruct (progress pre Hok Hnt) as [Hat Hst]. split.
  - split; [exact Hst|].
    unfold launch. rewrite ioc_run_returned.
    destruct Hat as (op & h & Hp & _ & _ & Hu).
    fold (launch ctx host port instrument pre).
    fold (after pre). rewrite Hu, Hp. reflexivity.
  - intros o post F.
    destruct (step_failed _ o _ Hat F) as (Hp & Hc & He & _).
    rewrite <- world_after_snoc in Hp, Hc, He.
    replace (pre ++ o :: post)%list with ((pre ++ [o]) ++ post)%list
      by (rewrite <- app_assoc; reflexivity).
    unfold launch. rewrite ioc_run_returned.
    fold (launch ctx host port instrument ((pre ++ [o]) ++ post)).
    fold (after ((pre ++ [o]) ++ post)).
    rewrite (after_app_stopped _ _ Hp), Hp, Hc, He.
    destruct (uncaught (after (pre ++ [o]))); auto.
Qed.

(** C4. After any sequence of completions the number of outstanding
    operations is one while all of them succeeded (and the reader threw
    on no message) and zero once one has failed or the reader has thrown;
    a further completion makes its handler issue at most one operation,
    and what is outstanding afterwards is exactly what that handler
    issued. *)
Theorem one_operation_outstanding (script : list outcome) (o : outcome) :
  List.length (pending (after script))
  = (if all_ok script && no_throw script then 1 else 0)
  /\ List.length (issued (calls (step o (after script))))
     <= S (List.length (issued (calls (after script))))
  /\ map fst (pending (step o (after script)))
     = skipn (List.length (issued (calls (after script))))
             (issued (calls (step o (after script)))).
Proof.
  destruct (all_ok script && no_throw script) eqn:Hok.
  - apply andb_true_iff in Hok as [Hok Hnt].
    destruct (progress script Hok Hnt) as (Hat & _). split.
    + destruct Hat as (op & h & Hp & _). rewrite Hp. reflexivity.
    + apply (step_issues_at_most_one _ o _ Hat).
  - pose proof (halted script Hok) as Hp.
    rewrite (step_idle o _ Hp), Hp, skipn_all. simpl. split; [reflexivity|].
    split; [lia | reflexivity].
Qed.

Lemma settled_step (base w : world) (o : outcome) :
  settled base w -> settled base (step o w).
Proof.
  intros (Ht & Hw & Hh & Hf & Hk & [Hp | (st & L & Hat)]).
  - rewrite (step_idle o w Hp). repeat split; auto.
  - destruct (step_past_tls st o w Hat L) as (Hp' & (extra & Hc & Hx) & Ht' & Hw' & Hh').
    assert (Hlen : List.length (calls base) <= List.length (calls w)).
    { rewrite <- Hf. rewrite length_firstn. lia. }
    repeat split; try congruence.
    + rewrite Hc, firstn_app.
      replace (List.length (calls base) - List.length (calls w)) with 0 by lia.
      simpl. rewrite app_nil_r. exact Hf.
    + rewrite Hc, skipn_app, forallb_app, Hk.
      replace (List.length (calls base) - List.length (calls w)) with 0 by lia.
      exact Hx.
    + destruct Hp' as [Hp' | Hat']; [left; exact Hp'|].
      right. exists (next_stage st). split; [destruct st; auto|exact Hat'].
Qed.

Lemma settled_after (pre rest : list outcome) (st : stage) :
  past_tls st = true -> at_stage st (after pre) ->
  settled (after pre) (after (pre ++ rest)).
Proof.
  intros L Hat. induction rest as [|o rest IH] using rev_ind.
  - rewrite app_nil_r. repeat split; auto.
    + apply firstn_all.
    + rewrite skipn_all. reflexivity.
    + right. exists st. auto.
  - rewrite app_assoc, world_after_snoc. apply settled_step, IH.
Qed.

Lemma world_after_fold (script : list outcome) :
  after script
  = fold_left (fun w o => step o w) script
              (exec (run host port instrument) (WebSocketClient ctx)).
Proof.
  induction script as [|o script IH] using rev_ind; [reflexivity|].
  rewrite world_after_snoc, fold_left_app, IH. reflexivity.
Qed.

(** Run the handlers over a script of explicit length, given which of
    its completions succeed. *)
Ltac run_script :=
  rewrite ?world_after_fold; unfold step, run; run_handlers; simpl;
  repeat match goal with
         | H : ec_failed _ = _ |- _ => rewrite H; simpl
         end.

(** From the upgrade on, the log only grows by writes, reads and
    [consume]s. *)
Lemma calls_after_tls (o0 o1 o2 : outcome) (rest : list outcome) :
  ec_failed (out_ec o0) = false ->
  ec_failed (out_ec o1) = false ->
  ec_failed (out_ec o2) = false ->
  exists later,
    calls (after (o0 :: o1 :: o2 :: rest)) = (calls (after [o0; o1; o2]) ++ later)%list
    /\ forallb subscribe_or_stream later = true.
Proof.
  intros H0 H1 H2.
  assert (Hat : at_stage st_upgrade (after [o0; o1; o2])).
  { eexists _, _. run_script. repeat split. }
  destruct (settled_after [o0; o1; o2] rest st_upgrade eq_refl Hat)
    as (_ & _ & _ & Hf & Hk & _).
  change ([o0; o1; o2] ++ rest)%list with (o0 :: o1 :: o2 :: rest) in *.
  eexists. split; [|exact Hk].
  rewrite <- (firstn_skipn (List.length (calls (after [o0; o1; o2])))
                (calls (after (o0 :: o1 :: o2 :: rest)))) at 1.
  rewrite Hf. reflexivity.
Qed.

(** C5. The connect is issued right after [expires_after(30)], the TLS
    handshake right after a second [expires_after(30)]; once the TLS
    handshake has succeeded the stream's expiry is switched off and the
    WebSocket layer's suggested client timeouts are installed, and from
    then on no call touches either setting. *)
Theorem connect_phase_timeouts (o0 o1 o2 : outcome) (rest : list outcome) :
  ec_failed (out_ec o0) = false ->
  ec_failed (out_ec o1) = false ->
  ec_failed (out_ec o2) = false ->
  (calls (after [o0])
   = [issue (op_resolve host port) h_on_resolve;
      expires_after 30;
      issue (op_connect (out_results o0)) h_on_connect]
   /\ tcp_expiry (after [o0]) = Some 30%Z)
  /\ (calls (after [o0; o1])
      = (calls (after [o0])
         ++ [expires_after 30; issue (op_ssl_handshake client) h_on_ssl_handshake])%list
      /\ tcp_expiry (after [o0; o1]) = Some 30%Z)
  /\ (firstn 8 (calls (after (o0 :: o1 :: o2 :: rest)))
      = (calls (after [o0; o1])
         ++ [expires_never;
             set_option (timeout_suggested role_client);
             issue (op_ws_handshake (host_ (after [o0; o1])) "/ws/api/v2")
                   h_on_handshake])%list
      /\ forallb subscribe_or_stream (skipn 8 (calls (after (o0 :: o1 :: o2 :: rest)))) = true
      /\ tcp_expiry (after (o0 :: o1 :: o2 :: rest)) = None
      /\ ws_timeout_option (after (o0 :: o1 :: o2 :: rest))
         = timeout_suggested role_client).
Proof.
  intros H0 H1 H2.
  split; [split; run_script; reflexivity|].
  split; [split; run_script; reflexivity|].
  assert (Hat : at_stage st_upgrade (after [o0; o1; o2])).
  { eexists _, _. run_script. repeat split. }
  destruct (settled_after [o0; o1; o2] rest st_upgrade eq_refl Hat)
    as (Ht & Hw & _ & Hf & Hk & _).
  change ([o0; o1; o2] ++ rest)%list with (o0 :: o1 :: o2 :: rest) in *.
  assert (Hc : calls (after [o0; o1; o2])
               = (calls (after [o0; o1])
                  ++ [expires_never;
                      set_option (timeout_suggested role_client);
                      issue (op_ws_handshake (host_ (after [o0; o1])) "/ws/api/v2")
                        h_on_handshake])%list)
    by (run_script; reflexivity).
  assert (Hl : List.length (calls (after [o0; o1; o2])) = 8)
    by (run_script; reflexivity).
  rewrite Hl in Hf, Hk. rewrite Hf, Hk, Ht, Hw, Hc.
  repeat split; run_script; reflexivity.
Qed.

(** A read that completes without error and on whose message the reader
    does not throw: the reader's answer only decides what is printed. *)
Lemma read_completed (o : outcome) (w : world) :
  pending w = [(op_read, h_on_read)] ->
  uncaught w = None ->
  ec_failed (out_ec o) = false ->
  throws (buffer_ w ++ out_data o)%list = false ->
  (pending (step o w) = [(op_read, h_on_read)]
   /\ buffer_ (step o w) = []
   /\ calls (step o w)
      = (calls w ++ [consume (List.length (buffer_ w ++ out_data o)%list);
                     issue op_read h_on_read])%list
   /\ host_ (step o w) = host_ w
   /\ instrument_ (step o w) = instrument_ w
   /\ tcp_expiry (step o w) = tcp_expiry w
   /\ ws_timeout_option (step o w) = ws_timeout_option w)
  /\ (Reader_parse (string_of_list_byte (buffer_ w ++ out_data o)%list) = parse_failed ->
      cerr (step o w)
      = cerr w ++ ("Failed to parse JSON: "
                   ++ string_of_list_byte (buffer_ w ++ out_data o)%list ++ endl)
      /\ cout (step o w) = cout w).
Proof.
  intros Hp Hu F T. unfold step, throws in *. rewrite Hu, Hp. run_handlers. simpl.
  rewrite F. simpl.
  destruct (Reader_parse _) eqn:E; try discriminate T; simpl;
    rewrite skipn_all, <- app_assoc; simpl;
    (split; [repeat split; reflexivity|]).
  - discriminate.
  - intros _. split; reflexivity.
Qed.

Lemma length_le_list_max (f : outcome -> nat) (script : list outcome) (o : outcome) :
  In o script -> f o <= list_max (map f script).
Proof.
  intros Hin.
  assert (H : Forall (fun k => k <= list_max (map f script)) (map f script))
    by (apply list_max_le; lia).
  rewrite Forall_forall in H. apply H, in_map, Hin.
Qed.

(** C7. Over any run: whenever an operation is outstanding the receive
    buffer is empty; the buffer never holds more than the data of one
    receive; every [consume] in the log takes exactly one message; and a
    successfully completed receive of the read loop (on which the reader
    does not throw) is followed by a [consume] of the whole buffer and
    only then by the next receive. *)
Theorem receive_buffer_one_message (script : list outcome) (o : outcome) :
  (pending (after script) <> [] -> buffer_ (after script) = [])
  /\ (buffer_ (after script) = []
      \/ exists m, In m script /\ buffer_ (after script) = out_data m)
  /\ List.length (buffer_ (after script))
     <= list_max (map (fun m => List.length (out_data m)) script)
  /\ Forall (fun c => forall n, c = consume n ->
                      exists m, In m script /\ n = List.length (out_data m))
            (calls (after script))
  /\ (all_ok (script ++ [o]) = true -> no_throw (script ++ [o]) = true ->
      5 <= List.length script ->
      calls (after (script ++ [o]))
      = (calls (after script)
         ++ [consume (List.length (out_data o)); issue op_read h_on_read])%list
      /\ buffer_ (after (script ++ [o])) = []).
Proof.
  assert (Inv : forall s,
    (pending (after s) <> [] -> buffer_ (after s) = [])
    /\ (buffer_ (after s) = [] \/ exists m, In m s /\ buffer_ (after s) = out_data m)
    /\ Forall (fun c => forall n, c = consume n ->
                        exists m, In m s /\ n = List.length (out_data m))
              (calls (after s))).
  { induction s as [|a s IH] using rev_ind.
    - split; [reflexivity|]. split; [left; reflexivity|].
      repeat constructor. intros n Hn. discriminate Hn.
    - destruct IH as (Hb & Hm & Hc). rewrite world_after_snoc.
      assert (Hc' : Forall (fun c => forall n, c = consume n ->
                       exists m, In m (s ++ [a])%list /\ n = List.length (out_data m))
                     (calls (after s))).
      { eapply Forall_impl; [|exact Hc]. intros c Hn n E.
        destruct (Hn n E) as (m & Hin & Hl). exists m. split; [|exact Hl].
        apply in_or_app. left. exact Hin. }
      destruct (all_ok s && no_throw s) eqn:Hok.
      + apply andb_true_iff in Hok as [Hok Hnt].
        destruct (progress_with_buffer s Hok Hnt) as (Hat & _ & B).
        destruct (step_buffer _ a _ Hat B) as (Hb' & extra & He & Hx).
        split; [|split].
        * intros Hne. destruct Hb' as [Hb' | [Hp' _]]; [exact Hb' | contradiction].
        * destruct Hb' as [Hb' | [_ Hb']]; [left; exact Hb'|].
          right. exists a. split; [apply in_or_app; right; left; reflexivity | exact Hb'].
        * rewrite He. apply Forall_app. split; [exact Hc'|].
          eapply Forall_impl; [|exact Hx]. intros c Hn n E. exists a.
          split; [apply in_or_app; right; left; reflexivity | exact (Hn n E)].
      + pose proof (halted s Hok) as Hp. rewrite (step_idle a _ Hp).
        split; [auto|]. split; [|exact Hc'].
        destruct Hm as [Hm | (m & Hin & Hm)]; [left; exact Hm|].
        right. exists m. split; [apply in_or_app; left; exact Hin | exact Hm]. }
  destruct (Inv script) as (Hb & Hm & Hc).
  split; [exact Hb|]. split; [exact Hm|]. split; [|split; [exact Hc|]].
  - destruct Hm as [-> | (m & Hin & ->)]; [simpl; lia|].
    apply (length_le_list_max (fun m => List.length (out_data m))), Hin.
  - intros Hok Hnt Hlen. rewrite all_ok_snoc in Hok.
    apply andb_true_iff in Hok as [Hs Ho].
    rewrite (no_throw_snoc _ o Hlen) in Hnt. apply andb_true_iff in Hnt as [Hnt Ht].
    apply negb_true_iff in Ht.
    destruct (progress_with_buffer script Hs Hnt) as (Hat & _ & B).
    rewrite (stage_at_late _ Hlen) in Hat.
    assert (Hp : pending (after script) = [(op_read, h_on_read)]
                 /\ uncaught (after script) = None).
    { at_stage_cases Hat. auto. }
    destruct Hp as [Hp Hu].
    unfold succeeded in Ho. apply negb_true_iff in Ho.
    assert (T : throws (buffer_ (after script) ++ out_data o)%list = false)
      by (rewrite B; exact Ht).
    destruct (read_completed o _ Hp Hu Ho T) as ((_ & Hb' & Hc' & _) & _).
    rewrite world_after_snoc, Hb', Hc', B. auto.
Qed.

Lemma streaming_op (op : async_op) : op_stage op = st_streaming -> op = op_read.
Proof. destruct op; simpl; intros H; try discriminate H; reflexivity. Qed.

(** C8. In a run whose completions all succeed (the reader throwing on
    no message) and that got past the upgrade, the operations issued are, in this order: the resolve, the
    connect, the TLS handshake, the upgrade, one write, and then only
    reads, one per further completion.  The write carries the serialised
    subscription, whose channel list is the single name
    "book." + instrument + ".100ms".  The first read is the one issued
    when the write completes: no inbound message comes before it. *)
Theorem subscription_sent_once (o0 o1 o2 o3 : outcome) (rest : list outcome) :
  all_ok (o0 :: o1 :: o2 :: o3 :: rest) = true ->
  no_throw (o0 :: o1 :: o2 :: o3 :: rest) = true ->
  issued (calls (after (o0 :: o1 :: o2 :: o3 :: rest)))
  = ([op_resolve host port;
      op_connect (out_results o0);
      op_ssl_handshake client;
      op_ws_handshake (host ++ ":" ++ to_string (ep_port (out_ep o1))) "/ws/api/v2";
      op_write (FastWriter_write (subscription instrument))]
     ++ repeat op_read (List.length rest))%list
  /\ written (issued (calls (after (o0 :: o1 :: o2 :: o3 :: rest))))
     = [FastWriter_write (subscription instrument)]
  /\ json_get ["params"; "channels"] (subscription instrument)
     = Some (JArray [JString ("book." ++ instrument ++ ".100ms")]).
Proof.
  intros Hok Hnt.
  assert (Hi : issued (calls (after (o0 :: o1 :: o2 :: o3 :: rest)))
    = ([op_resolve host port;
        op_connect (out_results o0);
        op_ssl_handshake client;
        op_ws_handshake (host ++ ":" ++ to_string (ep_port (out_ep o1))) "/ws/api/v2";
        op_write (FastWriter_write (subscription instrument))]
       ++ repeat op_read (List.length rest))%list).
  { revert Hok Hnt. induction rest as [|o rest IH] using rev_ind; intros Hok Hnt.
    - simpl in Hok. unfold succeeded in Hok.
      repeat (apply andb_true_iff in Hok as [?F Hok]).
      repeat match goal with H : negb _ = true |- _ => apply negb_true_iff in H end.
      run_script. reflexivity.
    - change (o0 :: o1 :: o2 :: o3 :: (rest ++ [o])%list)
        with (((o0 :: o1 :: o2 :: o3 :: rest) ++ [o])%list) in *.
      destruct (healthy_snoc _ o Hok Hnt) as (Hs & Hn & Ho & Ht).
      destruct (progress_with_buffer _ Hs Hn) as (Hat & _ & Hb).
      assert (T : stage_at (List.length (o0 :: o1 :: o2 :: o3 :: rest)) = st_streaming ->
                  throws (buffer_ (after (o0 :: o1 :: o2 :: o3 :: rest)) ++ out_data o)%list
                  = false)
        by (rewrite Hb; exact Ht).
      destruct (step_succeeded _ o _ Hat Ho T) as (op & h & _ & Hop & _ & Hi).
      rewrite world_after_snoc, Hi, (IH Hs Hn). simpl List.length in Hop.
      assert (E : next_stage (stage_at (S (S (S (S (List.length rest))))))
                  = st_streaming).
      { unfold stage_at. simpl. destruct (List.length rest) as [|[|n]]; reflexivity. }
      rewrite E in Hop. apply streaming_op in Hop. subst op.
      rewrite length_app, repeat_app, <- app_assoc. reflexivity. }
  split; [exact Hi|]. split; [|reflexivity].
  rewrite Hi, written_app. simpl. f_equal. clear.
  induction (List.length rest) as [|n IHn]; [reflexivity | exact IHn].
Qed.

Lemma authorities_after (pre rest : list outcome) (st : stage) :
  past_tls st = true -> at_stage st (after pre) ->
  authorities (issued (calls (after (pre ++ rest))))
  = authorities (issued (calls (after pre))).
Proof.
  intros L Hat. induction rest as [|o rest IH] using rev_ind.
  - rewrite app_nil_r. reflexivity.
  - rewrite app_assoc, world_after_snoc, <- IH.
    destruct (settled_after pre rest st L Hat) as (_ & _ & _ & _ & _ & [Hp | (st' & L' & Hat')]).
    + rewrite (step_idle o _ Hp). reflexivity.
    + apply (step_past_tls_authorities st' o _ Hat' L').
Qed.

(** C9. [host_] holds the name given to [run] until the connect has
    completed; if it completed without error the port of the connected
    endpoint is appended as ":<port>", and no later completion changes the
    string again.  The upgrade handshake, if one is issued, is issued
    once and with that host:port value as its authority. *)
Theorem host_mutated_once (o0 o1 o2 : outcome) (rest : list outcome) :
  host_ (after []) = host
  /\ host_ (after [o0]) = host
  /\ host_ (after [o0; o1])
     = (if succeeded o0 && succeeded o1
        then host ++ ":" ++ to_string (ep_port (out_ep o1))
        else host)
  /\ host_ (after (o0 :: o1 :: o2 :: rest)) = host_ (after [o0; o1])
  /\ authorities (issued (calls (after [o0; o1]))) = []
  /\ authorities (issued (calls (after (o0 :: o1 :: o2 :: rest))))
     = (if succeeded o0 && succeeded o1 && succeeded o2
        then [host_ (after [o0; o1])]
        else []).
Proof.
  unfold succeeded.
  destruct (ec_failed (out_ec o0)) eqn:F0; simpl.
  { assert (Hp : pending (after [o0]) = []) by (run_script; reflexivity).
    change (o0 :: o1 :: o2 :: rest) with ([o0] ++ o1 :: o2 :: rest)%list.
    change [o0; o1] with ([o0] ++ [o1])%list.
    rewrite !(after_app_stopped _ _ Hp). repeat split; run_script; reflexivity. }
  destruct (ec_failed (out_ec o1)) eqn:F1; simpl.
  { assert (Hp : pending (after [o0; o1]) = []) by (run_script; reflexivity).
    change (o0 :: o1 :: o2 :: rest) with ([o0; o1] ++ o2 :: rest)%list.
    rewrite !(after_app_stopped _ _ Hp). repeat split; run_script; reflexivity. }
  destruct (ec_failed (out_ec o2)) eqn:F2; simpl.
  { assert (Hp : pending (after [o0; o1; o2]) = []) by (run_script; reflexivity).
    change (o0 :: o1 :: o2 :: rest) with ([o0; o1; o2] ++ rest)%list.
    rewrite !(after_app_stopped _ _ Hp). repeat split; run_script; reflexivity. }
  assert (Hat : at_stage st_upgrade (after [o0; o1; o2])).
  { eexists _, _. run_script. repeat split. }
  change (o0 :: o1 :: o2 :: rest) with ([o0; o1; o2] ++ rest)%list.
  rewrite (authorities_after _ rest st_upgrade eq_refl Hat).
  destruct (settled_after [o0; o1; o2] rest st_upgrade eq_refl Hat)
    as (_ & _ & Hh & _).
  rewrite Hh. repeat split; run_script; reflexivity.
Qed.

(** ** Further properties of a launched session *)

Lemma append_assoc (a b c : string) : ((a ++ b) ++ c = a ++ (b ++ c))%string.
Proof. induction a as [|x a IH]; simpl; [reflexivity | rewrite IH; reflexivity]. Qed.

Lemma append_nil_r (a : string) : (a ++ "" = a)%string.
Proof. induction a as [|x a IH]; simpl; [reflexivity | rewrite IH; reflexivity]. Qed.

Lemma append_inv_head (a b c : string) : (a ++ b = a ++ c)%string -> b = c.
Proof.
  induction a as [|x a IH]; simpl; intros H; [exact H|].
  injection H as H. apply IH, H.
Qed.

Lemma join_snoc (ss : list string) (s : string) :
  join (ss ++ [s]) = (join ss ++ s)%string.
Proof.
  induction ss as [|x ss IH]; simpl.
  - apply append_nil_r.
  - rewrite IH, append_assoc. reflexivity.
Qed.

Lemma consumed_app (cs ds : list call) :
  consumed (cs ++ ds) = (consumed cs ++ consumed ds)%list.
Proof.
  induction cs as [|c cs IH]; simpl; [reflexivity|].
  destruct c; simpl; rewrite IH; reflexivity.
Qed.

(** A completion before the read loop prints nothing and consumes
    nothing when it succeeds. *)
Lemma step_quiet (st : stage) (o : outcome) (w : world) :
  at_stage st w ->
  st <> st_streaming ->
  ec_failed (out_ec o) = false ->
  cout (step o w) = cout w
  /\ cerr (step o w) = cerr w
  /\ consumed (calls (step o w)) = consumed (calls w).
Proof.
  intros H N F. unfold step.
  at_stage_cases H; try (exfalso; apply N; reflexivity);
    rewrite Hu, Hp; run_handlers; simpl; rewrite F; simpl;
    rewrite ?consumed_app; simpl; rewrite ?app_nil_r; repeat split; reflexivity.
Qed.

(** A read that completes without error prints what the reader's answer
    selects; unless the reader throws, the whole buffer is consumed. *)
Lemma read_output (o : outcome) (w : world) :
  pending w = [(op_read, h_on_read)] ->
  uncaught w = None ->
  ec_failed (out_ec o) = false ->
  cout (step o w) = (cout w ++ printed (buffer_ w ++ out_data o)%list)%string
  /\ cerr (step o w) = (cerr w ++ reported (buffer_ w ++ out_data o)%list)%string
  /\ consumed (calls (step o w))
     = (consumed (calls w)
        ++ (if throws (buffer_ w ++ out_data o)%list then []
            else [List.length (buffer_ w ++ out_data o)%list]))%list.
Proof.
  intros Hp Hu F. unfold step, printed, reported, throws. rewrite Hu, Hp.
  run_handlers. simpl. rewrite F. simpl.
  destruct (Reader_parse _); simpl; rewrite ?consumed_app; simpl;
    rewrite ?append_nil_r, ?append_assoc, ?app_nil_r; repeat split; reflexivity.
Qed.

(** While every completion succeeds and the reader does not throw: what
    has been printed and consumed is determined, message by message, by
    what was received. *)
Lemma read_loop_trace (script : list outcome) :
  all_ok script = true ->
  no_throw script = true ->
  cout (after script) = join (map printed (received script))
  /\ cerr (after script) = join (map reported (received script))
  /\ consumed (calls (after script))
     = map (fun data => List.length data) (received script).
Proof.
  induction script as [|o script IH] using rev_ind; intros Hok Hnt.
  - repeat split.
  - destruct (healthy_snoc _ o Hok Hnt) as (Hs & Hn & Ho & Ht).
    destruct (IH Hs Hn) as (Hc & He & Hm).
    destruct (progress_with_buffer script Hs Hn) as (Hat & _ & Hb).
    rewrite world_after_snoc.
    destruct (Nat.lt_ge_cases (List.length script) 5) as [Hlt | Hge].
    + destruct (step_quiet _ o _ Hat (stage_at_early _ Hlt) Ho) as (Hc' & He' & Hm').
      rewrite Hc', He', Hm', (received_snoc_early _ o Hlt). auto.
    + rewrite (stage_at_late _ Hge) in Hat. specialize (Ht (stage_at_late _ Hge)).
      assert (Hp : pending (after script) = [(op_read, h_on_read)]
                   /\ uncaught (after script) = None).
      { at_stage_cases Hat. auto. }
      destruct Hp as [Hp Hu].
      destruct (read_output o _ Hp Hu Ho) as (Hc' & He' & Hm').
      rewrite Hb in Hc', He', Hm'. simpl in Hc', He', Hm'. rewrite Ht in Hm'.
      rewrite Hc', He', Hm', (received_snoc _ o Hge), !map_app.
      cbn [map]. rewrite !join_snoc, Hc, He, Hm. auto.
Qed.

(** The state in which a message on which the reader throws leaves the
    session, whatever else the network would deliver. *)
Lemma after_thrown (pre post : list outcome) (o : outcome) (what : string) :
  all_ok pre = true ->
  no_throw pre = true ->
  5 <= List.length pre ->
  ec_failed (out_ec o) = false ->
  Reader_parse (string_of_list_byte (out_data o)) = parse_throws what ->
  after (pre ++ o :: post)
  = set_uncaught (Some what) (set_buffer_ (out_data o) (set_pending [] (after pre))).
Proof.
  intros Hok Hnt Hlen F P.
  destruct (progress_with_buffer pre Hok Hnt) as (Hat & _ & Hb).
  rewrite (stage_at_late _ Hlen) in Hat.
  assert (E : after (pre ++ [o])
              = set_uncaught (Some what)
                  (set_buffer_ (out_data o) (set_pending [] (after pre)))).
  { rewrite world_after_snoc, (step_thrown o _ what Hat F); rewrite Hb; [reflexivity|exact P]. }
  replace (pre ++ o :: post)%list with ((pre ++ [o]) ++ post)%list
    by (rewrite <- app_assoc; reflexivity).
  rewrite after_app_stopped; [exact E | rewrite E; reflexivity].
Qed.

(** X1. What a session prints.  While every completion succeeds and
    the reader throws on no message, [std::cout] holds, in arrival order,
    the rendering of each received message that parses, and [std::cerr]
    the report of each one the reader rejects.  When the next completion
    fails, [std::cout] is left alone and [std::cerr] gets exactly one
    more line, the one naming the stage that failed.  When instead the
    reader throws on the next message, the session prints nothing for it
    and the exception is in flight. *)
Theorem run_output (pre : list outcome) :
  all_ok pre = true ->
  no_throw pre = true ->
  (cout (after pre) = join (map printed (received pre))
   /\ cerr (after pre) = join (map reported (received pre)))
  /\ (forall (o : outcome) (post : list outcome),
        ec_failed (out_ec o) = true ->
        cout (after (pre ++ o :: post)) = join (map printed (received pre))
        /\ cerr (after (pre ++ o :: post))
           = (join (map reported (received pre))
              ++ (what_of (stage_at (List.length pre)) ++ ": "
                  ++ ec_message (out_ec o) ++ endl))%string)
  /\ (forall (o : outcome) (post : list outcome) (what : string),
        5 <= List.length pre ->
        ec_failed (out_ec o) = false ->
        Reader_parse (string_of_list_byte (out_data o)) = parse_throws what ->
        cout (after (pre ++ o :: post)) = join (map printed (received pre))
        /\ cerr (after (pre ++ o :: post)) = join (map reported (received pre))
        /\ uncaught (after (pre ++ o :: post)) = Some what).
Proof.
  intros Hok Hnt. destruct (read_loop_trace pre Hok Hnt) as (Hc & He & _).
  split; [split; assumption|]. split.
  - intros o post F. destruct (progress pre Hok Hnt) as [Hat _].
    destruct (step_failed _ o _ Hat F) as (Hp & _ & He' & Hc' & _).
    rewrite <- world_after_snoc in Hp, He', Hc'.
    replace (pre ++ o :: post)%list with ((pre ++ [o]) ++ post)%list
      by (rewrite <- app_assoc; reflexivity).
    rewrite (after_app_stopped _ _ Hp), Hc', He', Hc, He. auto.
  - intros o post what Hlen F P.
    rewrite (after_thrown pre post o what Hok Hnt Hlen F P). simpl. auto.
Qed.

(** X2. While every completion succeeds and the reader throws on no
    message, the sizes passed to [buffer_.consume] are exactly the sizes
    of the messages received, one call per message and in arrival order.
    A message on which the reader throws is not consumed: the log stays
    as it was and the buffer keeps the message. *)
Theorem consume_sizes (script : list outcome) :
  all_ok script = true ->
  no_throw script = true ->
  consumed (calls (after script))
  = map (fun data => List.length data) (received script)
  /\ (forall (o : outcome) (post : list outcome) (what : string),
        5 <= List.length script ->
        ec_failed (out_ec o) = false ->
        Reader_parse (string_of_list_byte (out_data o)) = parse_throws what ->
        calls (after (script ++ o :: post)) = calls (after script)
        /\ buffer_ (after (script ++ o :: post)) = out_data o).
Proof.
  intros Hok Hnt. split; [apply (read_loop_trace script Hok Hnt)|].
  intros o post what Hlen F P.
  rewrite (after_thrown script post o what Hok Hnt Hlen F P). auto.
Qed.

(** X3. The stream's expiry over any run: none until the resolve has
    succeeded, 30 seconds from then on, also when the connect or the TLS
    handshake fails and the session stops, and none again only once the
    TLS handshake has succeeded.  The WebSocket layer's suggested
    timeouts are installed at that moment and not before. *)
Theorem expiry_by_stage (o0 o1 o2 : outcome) (rest : list outcome) :
  (tcp_expiry (after []) = None
   /\ tcp_expiry (after [o0]) = (if succeeded o0 then Some 30%Z else None)
   /\ tcp_expiry (after [o0; o1]) = (if succeeded o0 then Some 30%Z else None)
   /\ tcp_expiry (after (o0 :: o1 :: o2 :: rest))
      = (if succeeded o0
         then if succeeded o1 && succeeded o2 then None else Some 30%Z
         else None))
  /\ (ws_timeout_option (after [o0; o1]) = timeout_default
      /\ ws_timeout_option (after (o0 :: o1 :: o2 :: rest))
         = (if succeeded o0 && succeeded o1 && succeeded o2
            then timeout_suggested role_client
            else timeout_default)).
Proof.
  unfold succeeded.
  destruct (ec_failed (out_ec o0)) eqn:F0; simpl.
  { assert (Hp : pending (after [o0]) = []) by (run_script; reflexivity).
    change (o0 :: o1 :: o2 :: rest) with ([o0] ++ o1 :: o2 :: rest)%list.
    change [o0; o1] with ([o0] ++ [o1])%list.
    rewrite !(after_app_stopped _ _ Hp). repeat split; run_script; reflexivity. }
  destruct (ec_failed (out_ec o1)) eqn:F1; simpl.
  { assert (Hp : pending (after [o0; o1]) = []) by (run_script; reflexivity).
    change (o0 :: o1 :: o2 :: rest) with ([o0; o1] ++ o2 :: rest)%list.
    rewrite !(after_app_stopped _ _ Hp). repeat split; run_script; reflexivity. }
  destruct (ec_failed (out_ec o2)) eqn:F2; simpl.
  { assert (Hp : pending (after [o0; o1; o2]) = []) by (run_script; reflexivity).
    change (o0 :: o1 :: o2 :: rest) with ([o0; o1; o2] ++ rest)%list.
    rewrite !(after_app_stopped _ _ Hp). repeat split; run_script; reflexivity. }
  assert (Hat : at_stage st_upgrade (after [o0; o1; o2])).
  { eexists _, _. run_script. repeat split. }
  change (o0 :: o1 :: o2 :: rest) with ([o0; o1; o2] ++ rest)%list.
  destruct (settled_after [o0; o1; o2] rest st_upgrade eq_refl Hat)
    as (Ht & Hw & _).
  rewrite Ht, Hw. repeat split; run_script; reflexivity.
Qed.

(** ** The operations that reach the endpoint *)

Lemma step_calls_grow (o : outcome) (w : world) :
  exists cs, calls (step o w) = (calls w ++ cs)%list.
Proof.
  unfold step. destruct (uncaught w); [exists []; symmetry; apply app_nil_r|].
  destruct (pending w) as [|[op h] r]; [exists []; symmetry; apply app_nil_r|].
  destruct op, h; run_handlers; simpl; destruct (ec_failed (out_ec o)); simpl;
    try destruct (Reader_parse _); simpl; rewrite <- ?app_assoc;
    first [eexists; reflexivity | exists []; symmetry; apply app_nil_r].
Qed.

Lemma calls_grow (pre post : list outcome) :
  exists cs, calls (after (pre ++ post)) = (calls (after pre) ++ cs)%list.
Proof.
  induction post as [|o post IH] using rev_ind.
  - exists []. rewrite !app_nil_r. reflexivity.
  - destruct IH as (cs & IH).
    destruct (step_calls_grow o (after (pre ++ post))) as (cs' & E).
    exists (cs ++ cs')%list.
    rewrite app_assoc, world_after_snoc, E, IH, app_assoc. reflexivity.
Qed.

Lemma issued_after_resolve (o0 : outcome) (rest : list outcome) :
  ec_failed (out_ec o0) = false ->
  firstn 2 (issued (calls (after (o0 :: rest))))
  = [op_resolve host port; op_connect (out_results o0)].
Proof.
  intros F0. destruct (calls_grow [o0] rest) as (cs & E).
  change ([o0] ++ rest)%list with (o0 :: rest) in E.
  rewrite E, issued_app. run_script. reflexivity.
Qed.

Lemma issued_after_tls (o0 o1 o2 : outcome) (rest : list outcome) :
  ec_failed (out_ec o0) = false ->
  ec_failed (out_ec o1) = false ->
  ec_failed (out_ec o2) = false ->
  firstn 4 (issued (calls (after (o0 :: o1 :: o2 :: rest))))
  = [op_resolve host port;
     op_connect (out_results o0);
     op_ssl_handshake client;
     op_ws_handshake (host ++ ":" ++ to_string (ep_port (out_ep o1))) "/ws/api/v2"]
  /\ forallb write_or_read (skipn 4 (issued (calls (after (o0 :: o1 :: o2 :: rest)))))
     = true.
Proof.
  intros F0 F1 F2.
  destruct (calls_after_tls o0 o1 o2 rest F0 F1 F2) as (later & E & Hk).
  assert (Hl : forallb write_or_read (issued later) = true).
  { clear E. induction later as [|c later IH]; [reflexivity|].
    simpl in Hk. apply andb_true_iff in Hk as [Hc Hk].
    destruct c as [op h| | | |]; try discriminate Hc; simpl; try (apply IH, Hk).
    destruct op; try discriminate Hc; simpl; apply IH, Hk. }
  rewrite E, issued_app. run_script. split; [reflexivity | exact Hl].
Qed.

End Launched.

(** ** Runs of [main] *)

Lemma ioc_run_fold (script : list outcome) (w : world) :
  snd (ioc_run script w) = fold_left (fun w o => step o w) script w.
Proof.
  induction script as [|o script IH] using rev_ind.
  - simpl. destruct (uncaught w); [|destruct (pending w) as [|[? ?] ?]]; reflexivity.
  - rewrite ioc_run_snoc, fold_left_app, IH. reflexivity.
Qed.

Lemma alike_step (o : outcome) (w w' : world) :
  alike w w' -> alike (step o w) (step o w').
Proof.
  intros H. pose proof H as (Hh & Hb & Hs & Ht & Hw & Hp & Hc & Ho & He & Hu).
  unfold step. rewrite <- Hu. destruct (uncaught w) eqn:U; [exact H|].
  destruct (pending w) as [|[op h] r] eqn:E, (pending w') as [|[op' h'] r'] eqn:E';
    simpl in Hp; try discriminate Hp.
  - exact H.
  - clear H. unfold blank_pending in Hp at 1 3. simpl in Hp.
    injection Hp as Hop Hhd Hr. subst h'.
    destruct op, op'; simpl in Hop; try discriminate Hop;
      try (injection Hop as ?; subst);
      destruct h; run_handlers; simpl;
      destruct (ec_failed (out_ec o)); simpl; rewrite <- ?Hb;
      try destruct (Reader_parse _);
      unfold alike; simpl;
      rewrite ?map_app, <- ?Hh, <- ?Hb, <- ?Hs, <- ?Ht, <- ?Hw, ?Hr, ?Hc, <- ?Ho, <- ?He,
        ?U, <- ?Hu;
      repeat split; reflexivity.
Qed.

Lemma alike_run (script : list outcome) (w w' : world) :
  alike w w' -> alike (snd (ioc_run script w)) (snd (ioc_run script w')).
Proof.
  rewrite !ioc_run_fold. revert w w'.
  induction script as [|o script IH]; intros w w' H; simpl; [exact H|].
  apply IH, alike_step, H.
Qed.

Lemma alike_returned (script : list outcome) (w w' : world) :
  alike w w' -> fst (ioc_run script w) = fst (ioc_run script w').
Proof.
  intros H. rewrite !ioc_run_returned.
  destruct (alike_run script w w' H) as (_ & _ & _ & _ & _ & Hp & _ & _ & _ & Hu).
  rewrite <- Hu. destruct (uncaught (snd (ioc_run script w))); [reflexivity|].
  destruct (pending (snd (ioc_run script w))), (pending (snd (ioc_run script w')));
    try discriminate Hp; reflexivity.
Qed.

Lemma stream_calls_fixed (cs : list call) :
  forallb subscribe_or_stream cs = true -> forallb fixed_endpoint (issued cs) = true.
Proof.
  induction cs as [|c cs IH]; simpl; [reflexivity|].
  intros H. apply andb_true_iff in H as [Hc Hcs].
  destruct c as [op h| | | |]; try discriminate Hc; simpl; try (apply IH, Hcs).
  destruct op; try discriminate Hc; simpl; apply IH, Hcs.
Qed.

Lemma session_world (instrument : string) (script : list outcome) :
  snd (session instrument script)
  = world_after main_ctx "www.deribit.com" "443" instrument script.
Proof. reflexivity. Qed.

Lemma session_endpoint (instrument : string) (script : list outcome) :
  hd_error (issued (calls (snd (session instrument script))))
  = Some (op_resolve "www.deribit.com" "443")
  /\ forallb fixed_endpoint (issued (calls (snd (session instrument script)))) = true.
Proof.
  rewrite session_world.
  destruct script as [|o0 [|o1 [|o2 rest]]].
  - split; reflexivity.
  - rewrite world_after_fold. unfold step, run. run_handlers. simpl.
    destruct (ec_failed (out_ec o0)); split; reflexivity.
  - rewrite world_after_fold. unfold step, run. run_handlers. simpl.
    destruct (ec_failed (out_ec o0)); simpl; [split; reflexivity|].
    destruct (ec_failed (out_ec o1)); split; reflexivity.
  - destruct (ec_failed (out_ec o0)) eqn:F0.
    { assert (Hp : pending (world_after main_ctx "www.deribit.com" "443" instrument [o0]) = []).
      { rewrite world_after_fold. unfold step, run. run_handlers. simpl. rewrite F0. reflexivity. }
      change (o0 :: o1 :: o2 :: rest) with ([o0] ++ o1 :: o2 :: rest)%list.
      rewrite (after_app_stopped _ _ _ _ _ _ Hp).
      rewrite world_after_fold. unfold step, run. run_handlers. simpl. rewrite F0.
      split; reflexivity. }
    destruct (ec_failed (out_ec o1)) eqn:F1.
    { assert (Hp : pending (world_after main_ctx "www.deribit.com" "443" instrument [o0; o1]) = []).
      { rewrite world_after_fold. unfold step, run. run_handlers. simpl.
        rewrite F0. simpl. rewrite F1. reflexivity. }
      change (o0 :: o1 :: o2 :: rest) with ([o0; o1] ++ o2 :: rest)%list.
      rewrite (after_app_stopped _ _ _ _ _ _ Hp).
      rewrite world_after_fold. unfold step, run. run_handlers. simpl.
      rewrite F0. simpl. rewrite F1. split; reflexivity. }
    destruct (ec_failed (out_ec o2)) eqn:F2.
    { assert (Hp : pending (world_after main_ctx "www.deribit.com" "443" instrument [o0; o1; o2]) = []).
      { rewrite world_after_fold. unfold step, run. run_handlers. simpl.
        rewrite F0. simpl. rewrite F1. simpl. rewrite F2. reflexivity. }
      change (o0 :: o1 :: o2 :: rest) with ([o0; o1; o2] ++ rest)%list.
      rewrite (after_app_stopped _ _ _ _ _ _ Hp).
      rewrite world_after_fold. unfold step, run. run_handlers. simpl.
      rewrite F0. simpl. rewrite F1. simpl. rewrite F2. split; reflexivity. }
    destruct (calls_after_tls main_ctx "www.deribit.com" "443" instrument
                o0 o1 o2 rest F0 F1 F2) as (later & Hc & Hk).
    rewrite Hc, !issued_app, forallb_app.
    rewrite (stream_calls_fixed _ Hk), andb_true_r.
    rewrite world_after_fold. unfold step, run. run_handlers. simpl.
    rewrite F0. simpl. rewrite F1. simpl. rewrite F2. simpl.
    destruct (to_string (ep_port (out_ep o1))); split; reflexivity.
Qed.

Lemma step_ssl_ctx (o : outcome) (w : world) : ssl_ctx (step o w) = ssl_ctx w.
Proof.
  unfold step. destruct (uncaught w); [reflexivity|].
  destruct (pending w) as [|[op h] r]; [reflexivity|].
  destruct op, h; run_handlers; simpl; destruct (ec_failed (out_ec o)); simpl;
    try destruct (Reader_parse _); reflexivity.
Qed.

Lemma session_ssl_ctx (instrument : string) (script : list outcome) :
  ssl_ctx (snd (session instrument script)) = main_ctx.
Proof.
  unfold session, launch. rewrite ioc_run_fold.
  induction script as [|o script IH] using rev_ind; [reflexivity|].
  rewrite fold_left_app. simpl. rewrite step_ssl_ctx. exact IH.
Qed.

Lemma step_instrument_ (o : outcome) (w : world) :
  instrument_ (step o w) = instrument_ w.
Proof.
  unfold step. destruct (uncaught w); [reflexivity|].
  destruct (pending w) as [|[op h] r]; [reflexivity|].
  destruct op, h; run_handlers; simpl; destruct (ec_failed (out_ec o)); simpl;
    try destruct (Reader_parse _); reflexivity.
Qed.

Lemma session_instrument_ (instrument : string) (script : list outcome) :
  instrument_ (snd (session instrument script)) = instrument.
Proof.
  unfold session, launch. rewrite ioc_run_fold.
  induction script as [|o script IH] using rev_ind; [reflexivity|].
  rewrite fold_left_app. simpl. rewrite step_instrument_. exact IH.
Qed.

Lemma main_launches (argv : list string) (e : environment) :
  List.length argv = 2 ->
  env_ctx_exception e = None ->
  main argv e
  = match uncaught (snd (session (nth 1 argv "") (env_script e))) with
    | Some what =>
        (Some EXIT_FAILURE,
         set_cerr (cerr (snd (session (nth 1 argv "") (env_script e)))
                   ++ ("Error: " ++ what ++ endl))
                  (snd (session (nth 1 argv "") (env_script e))))
    | None =>
        (if fst (session (nth 1 argv "") (env_script e)) then Some EXIT_SUCCESS else None,
         snd (session (nth 1 argv "") (env_script e)))
    end.
Proof.
  intros Hl He. unfold main. rewrite Hl, He. reflexivity.
Qed.

Lemma step_failed_clean (st : stage) (o : outcome) (w : world) :
  at_stage st w -> ec_failed (out_ec o) = true -> uncaught (step o w) = None.
Proof.
  intros H F. unfold step.
  at_stage_cases H; rewrite Hu, Hp; run_handlers; simpl; rewrite F; simpl; assumption.
Qed.

(** How a session ends, by what it met first. *)
Lemma session_running (instrument : string) (script : list outcome) :
  all_ok script = true ->
  no_throw script = true ->
  fst (session instrument script) = false
  /\ uncaught (snd (session instrument script)) = None.
Proof.
  intros Hok Hnt. unfold session, launch. rewrite ioc_run_returned.
  fold (launch main_ctx "www.deribit.com" "443" instrument script).
  fold (world_after main_ctx "www.deribit.com" "443" instrument script).
  destruct (progress main_ctx "www.deribit.com" "443" instrument script Hok Hnt)
    as [(op & h & Hp & _ & _ & Hu) _].
  rewrite Hu, Hp. auto.
Qed.

Lemma session_failed (instrument : string) (pre post : list outcome) (o : outcome) :
  all_ok pre = true ->
  no_throw pre = true ->
  ec_failed (out_ec o) = true ->
  fst (session instrument (pre ++ o :: post)) = true
  /\ uncaught (snd (session instrument (pre ++ o :: post))) = None.
Proof.
  intros Hok Hnt F. unfold session, launch. rewrite ioc_run_returned.
  fold (launch main_ctx "www.deribit.com" "443" instrument (pre ++ o :: post)).
  fold (world_after main_ctx "www.deribit.com" "443" instrument (pre ++ o :: post)).
  destruct (progress main_ctx "www.deribit.com" "443" instrument pre Hok Hnt) as [Hat _].
  destruct (step_failed _ o _ Hat F) as (Hp & _).
  pose proof (step_failed_clean _ o _ Hat F) as Hu.
  rewrite <- world_after_snoc in Hp, Hu.
  replace (pre ++ o :: post)%list with ((pre ++ [o]) ++ post)%list
    by (rewrite <- app_assoc; reflexivity).
  rewrite (after_app_stopped _ _ _ _ _ _ Hp), Hu, Hp. auto.
Qed.

Lemma session_thrown (instrument : string) (pre post : list outcome) (o : outcome)
    (what : string) :
  all_ok pre = true ->
  no_throw pre = true ->
  5 <= List.length pre ->
  ec_failed (out_ec o) = false ->
  Reader_parse (string_of_list_byte (out_data o)) = parse_throws what ->
  snd (session instrument (pre ++ o :: post))
  = set_uncaught (Some what)
      (set_buffer_ (out_data o) (set_pending [] (snd (session instrument pre)))).
Proof.
  intros Hok Hnt Hlen F P.
  apply (after_thrown main_ctx "www.deribit.com" "443" instrument pre post o what
           Hok Hnt Hlen F P).
Qed.

(** C1 (as the code has it). The context [main] builds and every session
    keeps demands a peer certificate whose chain validates against the
    default trust store, with no way to switch this off; it installs no
    name check, so the handshake accepts a peer exactly when its chain is
    trusted, whatever names the certificate is issued for. *)
Theorem tls_verifies_chain_only (argv : list string) (e : environment)
    (p : peer_certificate) :
  List.length argv = 2 ->
  env_ctx_exception e = None ->
  ctx_verify_mode (ssl_ctx (snd (main argv e))) = verify_peer
  /\ ctx_default_verify_paths (ssl_ctx (snd (main argv e))) = true
  /\ ctx_verify_callback (ssl_ctx (snd (main argv e))) = None
  /\ handshake_accepts (ssl_ctx (snd (main argv e))) p = cert_chain_trusted p.
Proof.
  intros Hl He. rewrite (main_launches argv e Hl He).
  assert (E : forall r : option Z * world,
            snd r = snd (session (nth 1 argv "") (env_script e)) \/
            (exists t, snd r = set_cerr t (snd (session (nth 1 argv "") (env_script e)))) ->
            ssl_ctx (snd r) = main_ctx).
  { intros r [-> | (t & ->)]; simpl; apply session_ssl_ctx. }
  assert (Hc : ssl_ctx (snd match uncaught (snd (session (nth 1 argv "") (env_script e))) with
                 | Some what =>
                     (Some EXIT_FAILURE,
                      set_cerr (cerr (snd (session (nth 1 argv "") (env_script e)))
                                ++ ("Error: " ++ what ++ endl))
                               (snd (session (nth 1 argv "") (env_script e))))
                 | None =>
                     (if fst (session (nth 1 argv "") (env_script e))
                      then Some EXIT_SUCCESS else None,
                      snd (session (nth 1 argv "") (env_script e)))
                 end) = main_ctx).
  { apply E. destruct (uncaught _); [right; eexists; reflexivity | left; reflexivity]. }
  rewrite Hc. repeat split.
  unfold handshake_accepts. simpl. apply andb_true_r.
Qed.

(** C2 (as the code has it). Without exactly one argument [main] returns
    [EXIT_FAILURE], and so it does when setting up throws.  With one
    argument and set-up done, [ioc.run()] stays running while every
    completion succeeds and the reader throws on no message.  When a
    completion reports an error, whichever stage it is, the handler
    reports it, [ioc.run()] returns and [main] returns [EXIT_SUCCESS].
    When the reader throws on a received message, the exception leaves
    [ioc.run()], [main] adds the line "Error: " and its text to what the
    session wrote on [std::cerr], and returns [EXIT_FAILURE].  The two
    statuses differ. *)
Theorem exit_status_of_main (argv : list string) (e : environment) :
  (List.length argv <> 2 -> fst (main argv e) = Some EXIT_FAILURE)
  /\ (forall what, List.length argv = 2 -> env_ctx_exception e = Some what ->
      fst (main argv e) = Some EXIT_FAILURE)
  /\ (List.length argv = 2 -> env_ctx_exception e = None ->
      all_ok (env_script e) = true -> no_throw (env_script e) = true ->
      fst (main argv e) = None)
  /\ (forall pre o post,
        List.length argv = 2 -> env_ctx_exception e = None ->
        env_script e = (pre ++ o :: post)%list ->
        all_ok pre = true -> no_throw pre = true ->
        ec_failed (out_ec o) = true ->
        fst (main argv e) = Some EXIT_SUCCESS)
  /\ (forall pre o post what,
        List.length argv = 2 -> env_ctx_exception e = None ->
        env_script e = (pre ++ o :: post)%list ->
        all_ok pre = true -> no_throw pre = true ->
        5 <= List.length pre ->
        ec_failed (out_ec o) = false ->
        Reader_parse (string_of_list_byte (out_data o)) = parse_throws what ->
        fst (main argv e) = Some EXIT_FAILURE
        /\ cerr (snd (main argv e))
           = cerr (snd (session (nth 1 argv "") pre)) ++ ("Error: " ++ what ++ endl))
  /\ EXIT_SUCCESS <> EXIT_FAILURE.
Proof.
  split; [|split; [|split; [|split; [|split]]]].
  - intros Hl. unfold main.
    destruct (Nat.eqb_spec (List.length argv) 2) as [E|_]; [contradiction|reflexivity].
  - intros what Hl He. unfold main. rewrite Hl, He. reflexivity.
  - intros Hl He Hok Hnt. rewrite (main_launches argv e Hl He).
    destruct (session_running (nth 1 argv "") (env_script e) Hok Hnt) as [Hf Hu].
    rewrite Hu, Hf. reflexivity.
  - intros pre o post Hl He Hs Hok Hnt F. rewrite (main_launches argv e Hl He), Hs.
    destruct (session_failed (nth 1 argv "") pre post o Hok Hnt F) as [Hf Hu].
    rewrite Hu, Hf. reflexivity.
  - intros pre o post what Hl He Hs Hok Hnt Hlen F P.
    rewrite (main_launches argv e Hl He), Hs.
    rewrite (session_thrown (nth 1 argv "") pre post o what Hok Hnt Hlen F P).
    simpl. auto.
  - discriminate.
Qed.

(** C6. A received message on which the reader throws, instead of
    returning false, is fatal: nothing is printed for it, the buffer is
    not consumed, no further read is issued, later completions are never
    handled, and [main] reports the exception and returns
    [EXIT_FAILURE]. *)
Theorem decode_exception_is_fatal (argv : list string) (pre post : list outcome)
    (o : outcome) (what : string) :
  List.length argv = 2 ->
  all_ok pre = true ->
  no_throw pre = true ->
  5 <= List.length pre ->
  ec_failed (out_ec o) = false ->
  Reader_parse (string_of_list_byte (out_data o)) = parse_throws what ->
  fst (main argv (mk_environment None (pre ++ o :: post))) = Some EXIT_FAILURE
  /\ pending (snd (main argv (mk_environment None (pre ++ o :: post)))) = []
  /\ buffer_ (snd (main argv (mk_environment None (pre ++ o :: post)))) = out_data o
  /\ calls (snd (main argv (mk_environment None (pre ++ o :: post))))
     = calls (snd (session (nth 1 argv "") pre))
  /\ cout (snd (main argv (mk_environment None (pre ++ o :: post))))
     = cout (snd (session (nth 1 argv "") pre))
  /\ cerr (snd (main argv (mk_environment None (pre ++ o :: post))))
     = cerr (snd (session (nth 1 argv "") pre)) ++ ("Error: " ++ what ++ endl).
Proof.
  intros Hl Hok Hnt Hlen F P.
  rewrite (main_launches argv (mk_environment None (pre ++ o :: post)) Hl eq_refl).
  simpl env_script.
  rewrite (session_thrown (nth 1 argv "") pre post o what Hok Hnt Hlen F P).
  simpl. repeat split; reflexivity.
Qed.

(** What [main] returns besides the status is the session's final
    state, with the line of the catch block added when the reader threw. *)
Lemma main_world (argv : list string) (e : environment) :
  List.length argv = 2 ->
  env_ctx_exception e = None ->
  exists text,
    snd (main argv e)
    = set_cerr (cerr (snd (session (nth 1 argv "") (env_script e))) ++ text)
               (snd (session (nth 1 argv "") (env_script e)))
    /\ text = match uncaught (snd (session (nth 1 argv "") (env_script e))) with
              | Some what => "Error: " ++ what ++ endl
              | None => ""
              end.
Proof.
  intros Hl He. rewrite (main_launches argv e Hl He).
  destruct (uncaught (snd (session (nth 1 argv "") (env_script e)))).
  - eexists. split; reflexivity.
  - exists "". split; [|reflexivity]. simpl. rewrite append_nil_r.
    destruct (snd (session (nth 1 argv "") (env_script e))). reflexivity.
Qed.

(** C10. Whatever the one argument is: the first operation is the
    resolve of "www.deribit.com" on "443"; once it has succeeded the
    connect to the endpoints it produced follows; once connect and TLS
    handshake have succeeded too, the fourth operation is the upgrade
    with that host, the connected port appended, as authority and
    "/ws/api/v2" as path, and only the write and reads follow.  No other
    operation names an endpoint, and two runs that meet the same
    completions with different arguments agree on the exit status and on
    the whole final state except for the instrument and the text of the
    message written. *)
Theorem endpoint_fixed_by_main (argv argv' : list string) (e : environment) :
  List.length argv = 2 ->
  List.length argv' = 2 ->
  env_ctx_exception e = None ->
  (hd_error (issued (calls (snd (main argv e))))
   = Some (op_resolve "www.deribit.com" "443")
   /\ forallb fixed_endpoint (issued (calls (snd (main argv e)))) = true)
  /\ (forall o0 rest,
        env_script e = o0 :: rest ->
        ec_failed (out_ec o0) = false ->
        firstn 2 (issued (calls (snd (main argv e))))
        = [op_resolve "www.deribit.com" "443"; op_connect (out_results o0)])
  /\ (forall o0 o1 o2 rest,
        env_script e = o0 :: o1 :: o2 :: rest ->
        ec_failed (out_ec o0) = false ->
        ec_failed (out_ec o1) = false ->
        ec_failed (out_ec o2) = false ->
        firstn 4 (issued (calls (snd (main argv e))))
        = [op_resolve "www.deribit.com" "443";
           op_connect (out_results o0);
           op_ssl_handshake client;
           op_ws_handshake ("www.deribit.com" ++ ":" ++ to_string (ep_port (out_ep o1)))
                           "/ws/api/v2"]
        /\ forallb write_or_read (skipn 4 (issued (calls (snd (main argv e))))) = true)
  /\ alike (snd (main argv e)) (snd (main argv' e))
  /\ fst (main argv e) = fst (main argv' e)
  /\ instrument_ (snd (main argv e)) = nth 1 argv "".
Proof.
  intros Hl Hl' He.
  destruct (main_world argv e Hl He) as (t & Hw & Ht).
  destruct (main_world argv' e Hl' He) as (t' & Hw' & Ht').
  assert (H0 : alike (exec (run "www.deribit.com" "443" (nth 1 argv "")) (WebSocketClient main_ctx))
                     (exec (run "www.deribit.com" "443" (nth 1 argv' "")) (WebSocketClient main_ctx)))
    by (repeat split).
  pose proof (alike_run (env_script e) _ _ H0) as Ha.
  fold (launch main_ctx "www.deribit.com" "443" (nth 1 argv "") (env_script e)) in Ha.
  fold (launch main_ctx "www.deribit.com" "443" (nth 1 argv' "") (env_script e)) in Ha.
  fold (session (nth 1 argv "") (env_script e)) in Ha.
  fold (session (nth 1 argv' "") (env_script e)) in Ha.
  rewrite Hw. simpl calls. simpl instrument_.
  split; [apply session_endpoint|].
  split; [intros o0 rest Hs F0; rewrite Hs, session_world;
          apply issued_after_resolve, F0|].
  split; [intros o0 o1 o2 rest Hs F0 F1 F2; rewrite Hs, session_world;
          apply issued_after_tls; assumption|].
  split; [|split; [|apply session_instrument_]].
  - rewrite Hw'.
    destruct Ha as (Hh & Hb & Hs & Hx & Hy & Hp & Hc & Ho & Hr & Hu).
    assert (Et : t = t') by (rewrite Ht, Ht', Hu; reflexivity).
    unfold alike. simpl. rewrite Hr, Et. repeat split; assumption.
  - rewrite (main_launches argv e Hl He), (main_launches argv' e Hl' He).
    destruct Ha as (_ & _ & _ & _ & _ & _ & _ & _ & _ & Hu).
    rewrite <- Hu. destruct (uncaught _); [reflexivity|]. simpl.
    unfold session, launch. rewrite (alike_returned _ _ _ H0). reflexivity.
Qed.

(** ** Further properties of the handlers and of [main] *)

(** X4. The line a failing completion writes tells which stage failed:
    two failures that leave the same text on [std::cerr], starting from
    the same text, happened at the same stage. *)
Theorem diagnostic_names_stage (st1 st2 : stage) (o1 o2 : outcome) (w1 w2 : world) :
  at_stage st1 w1 ->
  at_stage st2 w2 ->
  ec_failed (out_ec o1) = true ->
  ec_failed (out_ec o2) = true ->
  cerr w1 = cerr w2 ->
  cerr (step o1 w1) = cerr (step o2 w2) ->
  st1 = st2.
Proof.
  intros H1 H2 F1 F2 E0 E.
  destruct (step_failed _ o1 _ H1 F1) as (_ & _ & E1 & _).
  destruct (step_failed _ o2 _ H2 F2) as (_ & _ & E2 & _).
  rewrite E1, E2, E0 in E. apply append_inv_head in E.
  destruct st1, st2; simpl in E; try reflexivity; discriminate E.
Qed.

(** X5. What no completion does, whatever is outstanding and however it
    is bound: the instrument and the TLS context are left as they are,
    and the two output streams and the log of library calls only grow. *)
Theorem completion_frame (o : outcome) (w : world) :
  instrument_ (step o w) = instrument_ w
  /\ ssl_ctx (step o w) = ssl_ctx w
  /\ (exists text, cout (step o w) = (cout w ++ text)%string)
  /\ (exists text, cerr (step o w) = (cerr w ++ text)%string)
  /\ (exists cs, calls (step o w) = (calls w ++ cs)%list).
Proof.
  split; [apply step_instrument_|]. split; [apply step_ssl_ctx|].
  assert (Same : (exists text, cout w = (cout w ++ text)%string)
                 /\ (exists text, cerr w = (cerr w ++ text)%string)
                 /\ (exists cs, calls w = (calls w ++ cs)%list)).
  { split; [exists ""; symmetry; apply append_nil_r|].
    split; [exists ""; symmetry; apply append_nil_r|].
    exists []. symmetry. apply app_nil_r. }
  unfold step. destruct (uncaught w); [exact Same|].
  destruct (pending w) as [|[op h] r]; [exact Same|]. clear Same.
  destruct op, h; run_handlers; simpl; destruct (ec_failed (out_ec o)); simpl;
    try destruct (Reader_parse _); simpl;
    rewrite <- ?app_assoc, ?append_assoc;
    (split; [first [eexists; reflexivity | exists ""; symmetry; apply append_nil_r]|]);
    (split; [first [eexists; reflexivity | exists ""; symmetry; apply append_nil_r]|]);
    first [eexists; reflexivity | exists []; symmetry; apply app_nil_r].
Qed.

(** X7. [main] starts a session exactly when it is given one argument
    and setting up does not throw.  Otherwise it returns [EXIT_FAILURE]
    having issued no operation and printed nothing on [std::cout]; on
    [std::cerr] it leaves the two usage lines, or the line "Error: "
    followed by the exception's text. *)
Theorem main_early_exit (argv : list string) (e : environment) :
  (List.length argv <> 2 ->
   main argv e
   = (Some EXIT_FAILURE,
      set_cerr (("Usage: websocket_client <instrument>" ++ endl)
                ++ ("Example: websocket_client BTC-PERPETUAL" ++ endl))
               process_start))
  /\ (forall what, List.length argv = 2 -> env_ctx_exception e = Some what ->
      main argv e
      = (Some EXIT_FAILURE, set_cerr ("Error: " ++ what ++ endl) process_start))
  /\ (calls (snd (main argv e)) = []
      <-> List.length argv <> 2 \/ env_ctx_exception e <> None).
Proof.
  split; [|split].
  - intros Hl. unfold main.
    destruct (Nat.eqb_spec (List.length argv) 2) as [E|_]; [contradiction|reflexivity].
  - intros what Hl He. unfold main. rewrite Hl, He. reflexivity.
  - unfold main. destruct (Nat.eqb_spec (List.length argv) 2) as [E|N]; simpl.
    + destruct (env_ctx_exception e) as [what|] eqn:He.
      * split; [right; discriminate | reflexivity].
      * split.
        -- intros Hc.
           assert (Hc' : calls (snd (session (nth 1 argv "") (env_script e))) = []).
           { destruct (uncaught (snd (session (nth 1 argv "") (env_script e))));
               exact Hc. }
           pose proof (proj1 (session_endpoint (nth 1 argv "") (env_script e))) as Hh.
           rewrite Hc' in Hh. discriminate Hh.
        -- intros [Hl | Hx]; contradiction.
    + split; [left; exact N | reflexivity].
Qed.

End Client.

(** ** The codec and the control flow *)

Lemma same_control_step
    (parse1 parse2 : string -> parse_result) (styled1 styled2 write : Json -> string)
    (o : outcome) (w w' : world) :
  (forall s, thrown_by (parse1 s) = thrown_by (parse2 s)) ->
  same_control w w' ->
  same_control (step parse1 styled1 write o w) (step parse2 styled2 write o w').
Proof.
  intros A H. pose proof H as (Hh & Hi & Hb & Hs & Ht & Hw & Hp & Hc & Hu).
  unfold step. rewrite <- Hu, <- Hp.
  destruct (uncaught w) eqn:U; [exact H|].
  destruct (pending w) as [|[op h] r] eqn:E; [exact H|]. clear H Hp.
  destruct op, h;
    unfold exec, complete, deliver, invoke, on_resolve, on_connect, on_ssl_handshake,
      on_handshake, on_write, on_read, subscribe_to_orderbook, read, fail;
    cbv [bind gets modify ret async log lowest_layer_expires_after
         lowest_layer_expires_never ws_set_option buffer_consume write_cout
         write_cerr throw fst snd];
    simpl; destruct (ec_failed (out_ec o)); simpl; rewrite <- ?Hb;
    try (match goal with
         | |- context [parse1 ?d] =>
             pose proof (A d) as T; destruct (parse1 d); destruct (parse2 d);
             simpl in T; try discriminate T; try (injection T as <-)
         end);
    unfold same_control; simpl;
    rewrite <- ?Hh, <- ?Hi, <- ?Hb, <- ?Hs, <- ?Ht, <- ?Hw, <- ?Hc, <- ?Hu, ?U;
    repeat split; reflexivity.
Qed.

(** X8. The reader steers a session only by throwing.  Two runs that
    meet the same completions with readers that throw on the same
    documents, and with any pretty-printers, agree on every library call,
    on what is outstanding, on the members and settings of the client, on
    the exception in flight and on whether the event loop was left: which
    documents a reader accepts or rejects, and how they are rendered,
    decides only what is printed. *)
Theorem parser_does_not_steer
    (parse1 parse2 : string -> parse_result) (styled1 styled2 write : Json -> string)
    (ctx : ssl_context) (host port instrument : string) (script : list outcome) :
  (forall s, thrown_by (parse1 s) = thrown_by (parse2 s)) ->
  same_control
    (world_after parse1 styled1 write ctx host port instrument script)
    (world_after parse2 styled2 write ctx host port instrument script)
  /\ fst (launch parse1 styled1 write ctx host port instrument script)
     = fst (launch parse2 styled2 write ctx host port instrument script).
Proof.
  intros A.
  assert (H : same_control
                (world_after parse1 styled1 write ctx host port instrument script)
                (world_after parse2 styled2 write ctx host port instrument script)).
  { induction script as [|o script IH] using rev_ind.
    - repeat split.
    - rewrite !world_after_snoc. apply same_control_step; [exact A | exact IH]. }
  split; [exact H|].
  unfold launch. rewrite !ioc_run_returned.
  destruct H as (_ & _ & _ & _ & _ & _ & Hp & _ & Hu).
  unfold world_after, launch in Hp, Hu. rewrite Hp, Hu. reflexivity.
Qed.

(** ** The theorems at sample runs *)

Local Abbreviation sample_main := (main sample_parse sample_styled sample_write).
Local Abbreviation sample_after :=
  (world_after sample_parse sample_styled sample_write
               main_ctx "www.deribit.com" "443" "BTC-PERPETUAL").
Local Abbreviation sample_launch :=
  (launch sample_parse sample_styled sample_write
          main_ctx "www.deribit.com" "443" "BTC-PERPETUAL").
Local Abbreviation sample_step := (step sample_parse sample_styled sample_write).
(** A completion without error that carries no data. *)
Local Abbreviation up := (completed "").

(** C1: a peer whose chain is trusted is accepted although its
    certificate is issued for another name. *)
Lemma tls_accepts_unrelated_name :
  handshake_accepts
    (ssl_ctx (snd (sample_main ["websocket_client"; "BTC-PERPETUAL"]
                               (mk_environment None []))))
    (mk_peer_certificate true ["evil.example"]) = true
  /\ cert_matches "www.deribit.com" (mk_peer_certificate true ["evil.example"]) = false.
Proof. split; reflexivity. Qed.

(** A peer whose chain is not trusted is refused, even under the right name. *)
Lemma tls_verifies_chain_only_witness :
  List.length ["websocket_client"; "BTC-PERPETUAL"] = 2
  /\ env_ctx_exception (mk_environment None [up; up]) = None
  /\ handshake_accepts
       (ssl_ctx (snd (sample_main ["websocket_client"; "BTC-PERPETUAL"]
                                  (mk_environment None [up; up]))))
       (mk_peer_certificate false ["www.deribit.com"])
     = false.
Proof.
  split; [reflexivity|]. split; [reflexivity|].
  apply (tls_verifies_chain_only sample_parse sample_styled sample_write
           ["websocket_client"; "BTC-PERPETUAL"] (mk_environment None [up; up])
           (mk_peer_certificate false ["www.deribit.com"]));
    reflexivity.
Defined.

(** C2: a failed resolve and a shutdown by the peer end with the same
    exit status. *)
Lemma connection_failure_exits_with_success :
  fst (sample_main ["websocket_client"; "BTC-PERPETUAL"]
                   (mk_environment None [failed_with host_not_found]))
  = Some EXIT_SUCCESS
  /\ fst (sample_main ["websocket_client"; "BTC-PERPETUAL"]
                      (mk_environment None [up; up; up; up; up; failed_with closed]))
     = Some EXIT_SUCCESS.
Proof. split; reflexivity. Qed.

(** No argument; an exception during set-up; a run still streaming; a
    failed resolve; a message on which the reader throws. *)
Lemma exit_status_of_main_witness :
  (List.length ["websocket_client"] <> 2
   /\ fst (sample_main ["websocket_client"] (mk_environment None []))
      = Some EXIT_FAILURE)
  /\ (env_ctx_exception (mk_environment (Some "context: no such file") [])
      = Some "context: no such file"
      /\ fst (sample_main ["websocket_client"; "BTC-PERPETUAL"]
                          (mk_environment (Some "context: no such file") []))
         = Some EXIT_FAILURE)
  /\ (all_ok [up; up; up; up; up; completed "{}"] = true
      /\ no_throw sample_parse [up; up; up; up; up; completed "{}"] = true
      /\ fst (sample_main ["websocket_client"; "BTC-PERPETUAL"]
                          (mk_environment None [up; up; up; up; up; completed "{}"]))
         = None)
  /\ (ec_failed (out_ec (failed_with host_not_found)) = true
      /\ fst (sample_main ["websocket_client"; "BTC-PERPETUAL"]
                          (mk_environment None ([] ++ failed_with host_not_found :: [up])))
         = Some EXIT_SUCCESS)
  /\ (5 <= List.length [up; up; up; up; up]
      /\ sample_parse (string_of_list_byte (out_data (completed (brackets 1001))))
         = parse_throws "Exceeded stackLimit in readValue()."
      /\ fst (sample_main ["websocket_client"; "BTC-PERPETUAL"]
                          (mk_environment None
                             ([up; up; up; up; up] ++ completed (brackets 1001) :: [])))
         = Some EXIT_FAILURE).
Proof.
  assert (L1 : List.length ["websocket_client"] <> 2) by (simpl; lia).
  assert (L5 : 5 <= List.length [up; up; up; up; up]) by (simpl; lia).
  assert (P : sample_parse (string_of_list_byte (out_data (completed (brackets 1001))))
              = parse_throws "Exceeded stackLimit in readValue().")
    by (vm_compute; reflexivity).
  split; [|split; [|split; [|split]]].
  - split; [exact L1|].
    exact (proj1 (exit_status_of_main sample_parse sample_styled sample_write
                    ["websocket_client"] (mk_environment None [])) L1).
  - split; [reflexivity|].
    exact (proj1 (proj2 (exit_status_of_main sample_parse sample_styled sample_write
                           ["websocket_client"; "BTC-PERPETUAL"]
                           (mk_environment (Some "context: no such file") [])))
                 "context: no such file" eq_refl eq_refl).
  - split; [reflexivity|]. split; [reflexivity|].
    exact (proj1 (proj2 (proj2
             (exit_status_of_main sample_parse sample_styled sample_write
                ["websocket_client"; "BTC-PERPETUAL"]
                (mk_environment None [up; up; up; up; up; completed "{}"]))))
             eq_refl eq_refl eq_refl eq_refl).
  - split; [reflexivity|].
    exact (proj1 (proj2 (proj2 (proj2
             (exit_status_of_main sample_parse sample_styled sample_write
                ["websocket_client"; "BTC-PERPETUAL"]
                (mk_environment None ([] ++ failed_with host_not_found :: [up]))))))
             [] (failed_with host_not_found) [up]
             eq_refl eq_refl eq_refl eq_refl eq_refl eq_refl).
  - split; [exact L5|]. split; [exact P|].
    exact (proj1 (proj1 (proj2 (proj2 (proj2 (proj2
             (exit_status_of_main sample_parse sample_styled sample_write
                ["websocket_client"; "BTC-PERPETUAL"]
                (mk_environment None
                   ([up; up; up; up; up] ++ completed (brackets 1001) :: [])))))))
             [up; up; up; up; up] (completed (brackets 1001)) []
             "Exceeded stackLimit in readValue()."
             eq_refl eq_refl eq_refl eq_refl eq_refl L5 eq_refl P)).
Defined.

(** Resolve and connect succeed, the TLS handshake fails. *)
Lemma lifecycle_order_and_failure_stop_witness :
  all_ok [up; up] = true
  /\ no_throw sample_parse [up; up] = true
  /\ stages (calls (sample_after [up; up])) = [st_resolve; st_connect; st_tls_handshake]
  /\ fst (sample_launch [up; up]) = false
  /\ ec_failed (out_ec (failed_with certificate_verify_failed)) = true
  /\ cerr (sample_after ([up; up] ++ failed_with certificate_verify_failed :: [up]))
     = "ssl_handshake: certificate verify failed" ++ endl
  /\ calls (sample_after ([up; up] ++ failed_with certificate_verify_failed :: [up]))
     = calls (sample_after [up; up])
  /\ pending (sample_after ([up; up] ++ failed_with certificate_verify_failed :: [up])) = []
  /\ fst (sample_launch ([up; up] ++ failed_with certificate_verify_failed :: [up])) = true.
Proof.
  pose proof (lifecycle_order_and_failure_stop sample_parse sample_styled sample_write
                main_ctx "www.deribit.com" "443" "BTC-PERPETUAL" [up; up]
                eq_refl eq_refl)
    as [[H1 H2] H3].
  split; [reflexivity|]. split; [reflexivity|]. split; [exact H1|]. split; [exact H2|].
  split; [reflexivity|].
  exact (H3 (failed_with certificate_verify_failed) [up] eq_refl).
Defined.

(** A run that reaches the read loop and receives one message. *)
Lemma connect_phase_timeouts_witness :
  ec_failed (out_ec up) = false
  /\ tcp_expiry (sample_after [up]) = Some 30%Z
  /\ tcp_expiry (sample_after [up; up]) = Some 30%Z
  /\ firstn 8 (calls (sample_after [up; up; up; up; up; completed "{}"]))
     = [issue (op_resolve "www.deribit.com" "443") h_on_resolve;
        expires_after 30;
        issue (op_connect [sample_endpoint]) h_on_connect;
        expires_after 30;
        issue (op_ssl_handshake client) h_on_ssl_handshake;
        expires_never;
        set_option (timeout_suggested role_client);
        issue (op_ws_handshake "www.deribit.com:443" "/ws/api/v2") h_on_handshake]
  /\ tcp_expiry (sample_after [up; up; up; up; up; completed "{}"]) = None
  /\ ws_timeout_option (sample_after [up; up; up; up; up; completed "{}"])
     = timeout_suggested role_client.
Proof.
  pose proof (connect_phase_timeouts sample_parse sample_styled sample_write
                main_ctx "www.deribit.com" "443" "BTC-PERPETUAL"
                up up up [up; up; completed "{}"] eq_refl eq_refl eq_refl)
    as ((_ & H1) & (_ & H2) & H3 & _ & H4 & H5).
  split; [reflexivity|]. split; [exact H1|]. split; [exact H2|].
  split; [exact H3|]. split; [exact H4 | exact H5].
Defined.

(** Two messages received one after the other. *)
Lemma receive_buffer_one_message_witness :
  all_ok ([up; up; up; up; up; completed "{}"] ++ [completed "x"]) = true
  /\ no_throw sample_parse ([up; up; up; up; up; completed "{}"] ++ [completed "x"]) = true
  /\ 5 <= List.length [up; up; up; up; up; completed "{}"]
  /\ List.length (buffer_ (sample_after [up; up; up; up; up; completed "{}"])) <= 2
  /\ calls (sample_after ([up; up; up; up; up; completed "{}"] ++ [completed "x"]))
     = (calls (sample_after [up; up; up; up; up; completed "{}"])
        ++ [consume 1; issue op_read h_on_read])%list
  /\ buffer_ (sample_after ([up; up; up; up; up; completed "{}"] ++ [completed "x"])) = [].
Proof.
  pose proof (receive_buffer_one_message sample_parse sample_styled sample_write
                main_ctx "www.deribit.com" "443" "BTC-PERPETUAL"
                [up; up; up; up; up; completed "{}"] (completed "x"))
    as (_ & _ & H1 & _ & H2).
  assert (L : 5 <= List.length [up; up; up; up; up; completed "{}"]) by (simpl; lia).
  split; [reflexivity|]. split; [reflexivity|]. split; [exact L|]. split; [exact H1|].
  exact (H2 eq_refl eq_refl L).
Defined.

(** The operations of a run that has received one message. *)
Lemma subscription_sent_once_witness :
  all_ok [up; up; up; up; up; completed "{}"] = true
  /\ no_throw sample_parse [up; up; up; up; up; completed "{}"] = true
  /\ issued (calls (sample_after [up; up; up; up; up; completed "{}"]))
     = [op_resolve "www.deribit.com" "443";
        op_connect [sample_endpoint];
        op_ssl_handshake client;
        op_ws_handshake "www.deribit.com:443" "/ws/api/v2";
        op_write "subscribe book.BTC-PERPETUAL.100ms";
        op_read;
        op_read]
  /\ written (issued (calls (sample_after [up; up; up; up; up; completed "{}"])))
     = ["subscribe book.BTC-PERPETUAL.100ms"].
Proof.
  pose proof (subscription_sent_once sample_parse sample_styled sample_write
                main_ctx "www.deribit.com" "443" "BTC-PERPETUAL"
                up up up up [up; completed "{}"] eq_refl eq_refl)
    as (H1 & H2 & _).
  split; [reflexivity|]. split; [reflexivity|]. split; [exact H1 | exact H2].
Defined.

(** Two instruments, the same completions. *)
Lemma endpoint_fixed_by_main_witness :
  List.length ["websocket_client"; "BTC-PERPETUAL"] = 2
  /\ List.length ["websocket_client"; "ETH-PERPETUAL"] = 2
  /\ env_ctx_exception (mk_environment None [up; up; up; up; up]) = None
  /\ ec_failed (out_ec up) = false
  /\ firstn 4 (issued (calls (snd (sample_main ["websocket_client"; "BTC-PERPETUAL"]
                                               (mk_environment None [up; up; up; up; up])))))
     = [op_resolve "www.deribit.com" "443";
        op_connect [sample_endpoint];
        op_ssl_handshake client;
        op_ws_handshake "www.deribit.com:443" "/ws/api/v2"]
  /\ host_ (snd (sample_main ["websocket_client"; "BTC-PERPETUAL"]
                             (mk_environment None [up; up; up; up; up])))
     = host_ (snd (sample_main ["websocket_client"; "ETH-PERPETUAL"]
                               (mk_environment None [up; up; up; up; up]))).
Proof.
  pose proof (endpoint_fixed_by_main sample_parse sample_styled sample_write
                ["websocket_client"; "BTC-PERPETUAL"] ["websocket_client"; "ETH-PERPETUAL"]
                (mk_environment None [up; up; up; up; up]) eq_refl eq_refl eq_refl)
    as (_ & _ & H1 & (H2 & _) & _).
  split; [reflexivity|]. split; [reflexivity|]. split; [reflexivity|].
  split; [reflexivity|].
  split; [exact (proj1 (H1 up up up [up; up] eq_refl eq_refl eq_refl eq_refl))
         | exact H2].
Defined.

(** Two messages received, the second one rejected by the reader; then
    the peer closes, or a message arrives on which the reader throws. *)
Lemma run_output_witness :
  all_ok [up; up; up; up; up; completed "{}"; completed "oops"] = true
  /\ no_throw sample_parse [up; up; up; up; up; completed "{}"; completed "oops"] = true
  /\ cout (sample_after [up; up; up; up; up; completed "{}"; completed "oops"])
     = "Received message:" ++ endl ++ "{}" ++ endl
  /\ cerr (sample_after [up; up; up; up; up; completed "{}"; completed "oops"])
     = "Failed to parse JSON: oops" ++ endl
  /\ ec_failed (out_ec (failed_with closed)) = true
  /\ cerr (sample_after ([up; up; up; up; up; completed "{}"; completed "oops"]
                         ++ failed_with closed :: []))
     = "Failed to parse JSON: oops" ++ endl
       ++ "read: The WebSocket stream was gracefully closed at both endpoints" ++ endl
  /\ sample_parse (string_of_list_byte (out_data (completed (brackets 1001))))
     = parse_throws "Exceeded stackLimit in readValue()."
  /\ cerr (sample_after ([up; up; up; up; up; completed "{}"; completed "oops"]
                         ++ completed (brackets 1001) :: []))
     = "Failed to parse JSON: oops" ++ endl.
Proof.
  pose proof (run_output sample_parse sample_styled sample_write
                main_ctx "www.deribit.com" "443" "BTC-PERPETUAL"
                [up; up; up; up; up; completed "{}"; completed "oops"] eq_refl eq_refl)
    as ([H1 H2] & H3 & H4).
  assert (L : 5 <= List.length [up; up; up; up; up; completed "{}"; completed "oops"])
    by (simpl; lia).
  assert (P : sample_parse (string_of_list_byte (out_data (completed (brackets 1001))))
              = parse_throws "Exceeded stackLimit in readValue().")
    by (vm_compute; reflexivity).
  split; [reflexivity|]. split; [reflexivity|]. split; [exact H1|]. split; [exact H2|].
  split; [reflexivity|].
  split; [exact (proj2 (H3 (failed_with closed) [] eq_refl))|].
  split; [exact P|].
  exact (proj1 (proj2 (H4 (completed (brackets 1001)) [] _ L eq_refl P))).
Defined.

(** Messages of two and of four bytes. *)
Lemma consume_sizes_witness :
  all_ok [up; up; up; up; up; completed "{}"; completed "oops"] = true
  /\ no_throw sample_parse [up; up; up; up; up; completed "{}"; completed "oops"] = true
  /\ consumed (calls (sample_after [up; up; up; up; up; completed "{}"; completed "oops"]))
     = [2; 4].
Proof.
  split; [reflexivity|]. split; [reflexivity|].
  exact (proj1 (consume_sizes sample_parse sample_styled sample_write
                  main_ctx "www.deribit.com" "443" "BTC-PERPETUAL"
                  [up; up; up; up; up; completed "{}"; completed "oops"]
                  eq_refl eq_refl)).
Defined.

(** The TLS handshake fails in two sessions for different instruments. *)
Lemma diagnostic_names_stage_witness :
  at_stage st_tls_handshake (sample_after [up; up])
  /\ at_stage st_tls_handshake
       (world_after sample_parse sample_styled sample_write
                    main_ctx "www.deribit.com" "443" "ETH-PERPETUAL" [up; up])
  /\ ec_failed (out_ec (failed_with certificate_verify_failed)) = true
  /\ cerr (sample_step (failed_with certificate_verify_failed) (sample_after [up; up]))
     = cerr (sample_step (failed_with certificate_verify_failed)
               (world_after sample_parse sample_styled sample_write
                            main_ctx "www.deribit.com" "443" "ETH-PERPETUAL" [up; up]))
  /\ st_tls_handshake = st_tls_handshake.
Proof.
  assert (H1 : at_stage st_tls_handshake (sample_after [up; up])).
  { exists (op_ssl_handshake client), h_on_ssl_handshake. repeat split; reflexivity. }
  assert (H2 : at_stage st_tls_handshake
                 (world_after sample_parse sample_styled sample_write
                    main_ctx "www.deribit.com" "443" "ETH-PERPETUAL" [up; up])).
  { exists (op_ssl_handshake client), h_on_ssl_handshake. repeat split; reflexivity. }
  split; [exact H1|]. split; [exact H2|]. split; [reflexivity|].
  split; [reflexivity|].
  exact (diagnostic_names_stage sample_parse sample_styled sample_write
           st_tls_handshake st_tls_handshake
           (failed_with certificate_verify_failed)
           (failed_with certificate_verify_failed)
           (sample_after [up; up])
           (world_after sample_parse sample_styled sample_write
              main_ctx "www.deribit.com" "443" "ETH-PERPETUAL" [up; up])
           H1 H2 eq_refl eq_refl eq_refl eq_refl).
Defined.

(** No argument at all; an exception while the context is set up. *)
Lemma main_early_exit_witness :
  (List.length (@nil string) <> 2
   /\ snd (sample_main [] (mk_environment None [up]))
      = set_cerr ("Usage: websocket_client <instrument>" ++ endl
                  ++ "Example: websocket_client BTC-PERPETUAL" ++ endl)
                 process_start)
  /\ (List.length ["websocket_client"; "BTC-PERPETUAL"] = 2
      /\ env_ctx_exception (mk_environment (Some "context: no such file") [up])
         = Some "context: no such file"
      /\ cerr (snd (sample_main ["websocket_client"; "BTC-PERPETUAL"]
                                (mk_environment (Some "context: no such file") [up])))
         = "Error: context: no such file" ++ endl).
Proof.
  split.
  - assert (H : List.length (@nil string) <> 2) by (simpl; lia).
    split; [exact H|].
    exact (f_equal snd
             (proj1 (main_early_exit sample_parse sample_styled sample_write
                       [] (mk_environment None [up])) H)).
  - split; [reflexivity|]. split; [reflexivity|].
    exact (f_equal (fun r => cerr (snd r))
             (proj1 (proj2 (main_early_exit sample_parse sample_styled sample_write
                              ["websocket_client"; "BTC-PERPETUAL"]
                              (mk_environment (Some "context: no such file") [up])))
                    "context: no such file" eq_refl eq_refl)).
Defined.

(** Five completions establish the session; the message that follows is
    1001 opening brackets. *)
Lemma decode_exception_is_fatal_witness :
  List.length ["websocket_client"; "BTC-PERPETUAL"] = 2
  /\ all_ok [up; up; up; up; up] = true
  /\ no_throw sample_parse [up; up; up; up; up] = true
  /\ 5 <= List.length [up; up; up; up; up]
  /\ ec_failed (out_ec (completed (brackets 1001))) = false
  /\ sample_parse (string_of_list_byte (out_data (completed (brackets 1001))))
     = parse_throws "Exceeded stackLimit in readValue()."
  /\ fst (sample_main ["websocket_client"; "BTC-PERPETUAL"]
          (mk_environment None
             ([up; up; up; up; up] ++ completed (brackets 1001) :: [completed "{}"])))
     = Some EXIT_FAILURE
  /\ pending (snd (sample_main ["websocket_client"; "BTC-PERPETUAL"]
          (mk_environment None
             ([up; up; up; up; up] ++ completed (brackets 1001) :: [completed "{}"]))))
     = []
  /\ cerr (snd (sample_main ["websocket_client"; "BTC-PERPETUAL"]
          (mk_environment None
             ([up; up; up; up; up] ++ completed (brackets 1001) :: [completed "{}"]))))
     = "Error: Exceeded stackLimit in readValue()." ++ endl.
Proof.
  assert (L : 5 <= List.length [up; up; up; up; up]) by (simpl; lia).
  assert (P : sample_parse (string_of_list_byte (out_data (completed (brackets 1001))))
              = parse_throws "Exceeded stackLimit in readValue().")
    by (vm_compute; reflexivity).
  pose proof (decode_exception_is_fatal sample_parse sample_styled sample_write
                ["websocket_client"; "BTC-PERPETUAL"] [up; up; up; up; up]
                [completed "{}"] (completed (brackets 1001))
                "Exceeded stackLimit in readValue()."
                eq_refl eq_refl eq_refl L eq_refl P)
    as (H1 & H2 & _ & _ & _ & H3).
  split; [reflexivity|]. split; [reflexivity|]. split; [reflexivity|].
  split; [exact L|]. split; [reflexivity|]. split; [exact P|].
  split; [exact H1|]. split; [exact H2 | exact H3].
Defined.

(** A reader that rejects what the other accepts, over a run with one
    message of each kind. *)
Lemma parser_does_not_steer_witness :
  (forall s, thrown_by (sample_parse s) = thrown_by (sample_reject s))
  /\ calls (world_after sample_parse sample_styled sample_write
                        main_ctx "www.deribit.com" "443" "BTC-PERPETUAL"
                        [up; up; up; up; up; completed "{}"; completed (brackets 1001)])
     = calls (world_after sample_reject sample_styled sample_write
                          main_ctx "www.deribit.com" "443" "BTC-PERPETUAL"
                          [up; up; up; up; up; completed "{}"; completed (brackets 1001)]).
Proof.
  assert (A : forall s, thrown_by (sample_parse s) = thrown_by (sample_reject s)).
  { intros s. unfold sample_reject. destruct (sample_parse s); reflexivity. }
  split; [exact A|].
  exact (proj1 (proj2 (proj2 (proj2 (proj2 (proj2 (proj2 (proj2
           (proj1 (parser_does_not_steer sample_parse sample_reject
                     sample_styled sample_styled sample_write
                     main_ctx "www.deribit.com" "443" "BTC-PERPETUAL"
                     [up; up; up; up; up; completed "{}"; completed (brackets 1001)]
                     A)))))))))).
Defined.
